(** * subtitle-translate: the SRT batch translator of [main.py]

    A shallow embedding of [process_srt_file] (the cutting of the text
    into blocks, the planning loop, the translation loop with the merge
    of the responses, the reassembly), of [DeepLAPI], of
    [TranslationCache] and of [main] with its quota gate, with the
    properties the specification states about them.

    Conventions of the embedding.
    - A Python [str] is the list of its code points ([list N]); [len] is
      [length].  ASCII literals are written [py "..."].
    - A Python [dict] from [str] to [str] is a [gmap (list N) (list N)].
    - Python [int]s are [Z].  A Python [float] is an IEEE 754 binary64
      number, a [spec_float] at precision 53 and exponent bound 1024, with
      the arithmetic of the standard library's [SpecFloat] (round to
      nearest, ties to even).
    - The world outside the process is an [environment]: the remote end
      of the translate URL, the clock [time.sleep] waits on and the disk
      behind CACHE_FILE.  Each is asked with the requests posted so far,
      so that it may answer differently as time passes.
    - Writing the output file is taken to succeed whenever its text can be
      encoded; reading a file, and the text read, are inputs.
    - Console output is not modelled, except for the message the quota
      gate chooses. *)

From Stdlib Require Import ZArith Lia Ascii String SpecFloat.
From stdpp Require Import gmap strings list fin_maps.

Local Open Scope Z_scope.

(** ** Python strings *)

Definition py (s : string) : list N :=
  N_of_ascii <$> list_ascii_of_string s.

Definition NEWLINE : N := 10%N.
Definition SPACE : N := 32%N.

(** [str.isspace] on one code point (CPython's whitespace table). *)
Definition isspace (c : N) : bool :=
  ((9 <=? c) && (c <=? 13) || (28 <=? c) && (c <=? 32) || (c =? 133)
   || (c =? 160) || (c =? 5760) || (8192 <=? c) && (c <=? 8202)
   || (c =? 8232) || (c =? 8233) || (c =? 8239) || (c =? 8287)
   || (c =? 12288))%N.

Fixpoint lstrip (s : list N) : list N :=
  match s with
  | c :: r => if isspace c then lstrip r else s
  | [] => []
  end.

Definition rstrip (s : list N) : list N := reverse (lstrip (reverse s)).

(** [s.strip()] *)
Definition strip (s : list N) : list N := rstrip (lstrip s).

(** Truthiness of a string: [if s:] holds for the non-empty ones. *)
Definition truthy (s : list N) : bool :=
  match s with [] => false | _ => true end.

(** [sep.join(parts)] *)
Fixpoint join (sep : list N) (parts : list (list N)) : list N :=
  match parts with
  | [] => []
  | [p] => p
  | p :: ps => p ++ sep ++ join sep ps
  end.

Fixpoint starts_with (p s : list N) : bool :=
  match p, s with
  | [], _ => true
  | a :: p', b :: s' => (a =? b)%N && starts_with p' s'
  | _ :: _, [] => false
  end.

(** [s.split(sep)] for a non-empty [sep]: occurrences are taken from left
    to right and do not overlap.  [skip] counts the characters of a
    matched separator still to be passed over, [cur] holds the piece
    being read, in reverse. *)
Fixpoint split_from (sep : list N) (skip : nat) (cur s : list N)
  : list (list N) :=
  match s with
  | [] => [reverse cur]
  | c :: r =>
      match skip with
      | S k => split_from sep k cur r
      | O =>
          if starts_with sep s
          then reverse cur :: split_from sep (length sep - 1) [] r
          else split_from sep 0 (c :: cur) r
      end
  end.

Definition split (sep s : list N) : list (list N) := split_from sep 0 [] s.

(** ** The annotation pattern [\[.*?\]|\{.*?\}]

    [find_close close s] is the number of characters of [s] up to and
    including the first [close], provided no newline comes before it
    ([.] does not match a newline). *)
Fixpoint find_close (close : N) (s : list N) : option nat :=
  match s with
  | [] => None
  | c :: r =>
      if (c =? close)%N then Some 1%nat
      else if (c =? NEWLINE)%N then None
      else S <$> find_close close r
  end.

(** Length of the match of the pattern at the head of [s], if it matches
    there.  Both alternatives are lazy, so the match ends at the first
    closing character. *)
Definition match_annotation (s : list N) : option nat :=
  match s with
  | [] => None
  | c :: r =>
      if (c =? 91)%N then S <$> find_close 93%N r
      else if (c =? 123)%N then S <$> find_close 125%N r
      else None
  end.

(** [re.sub(r"\[.*?\]|\{.*?\}", "", s)]: leftmost matches, removed. *)
Fixpoint sub_annotations (skip : nat) (s : list N) : list N :=
  match s with
  | [] => []
  | c :: r =>
      match skip with
      | S k => sub_annotations k r
      | O =>
          match match_annotation s with
          | Some n => sub_annotations (n - 1) r
          | None => c :: sub_annotations 0 r
          end
      end
  end.

(** ** Python floats *)

(** An [int] as an operand of a true division: the number itself, not
    yet rounded. *)
Definition float_of_int (a : Z) : spec_float :=
  match a with
  | Z0 => S754_zero false
  | Zpos m => S754_finite false m 0
  | Zneg m => S754_finite true m 0
  end.

(** The float a decimal literal or a decimal string denotes: the quotient
    [num / den] rounded once. *)
Definition decimal (num den : Z) : spec_float :=
  SFdiv 53 1024 (float_of_int num) (float_of_int den).

Definition float_sub : spec_float -> spec_float -> spec_float :=
  SFsub 53 1024.

Definition float_mul : spec_float -> spec_float -> spec_float :=
  SFmul 53 1024.

(** [a > b]; false when either side is NaN. *)
Definition float_gt (a b : spec_float) : bool := SFltb b a.

(** [time.sleep(secs)] returns ([true]) or raises ([false]): ValueError on
    NaN and on a negative delay, OverflowError when the delay in
    nanoseconds does not fit 63 bits; [accepted] tells whether the clock
    takes the deadline of a delay that passes these tests (OSError when
    it does not).  The time spent waiting is not modelled. *)
Definition time_sleep (accepted : bool) (secs : spec_float) : bool :=
  negb (SFltb secs (S754_zero false))
  && SFltb (float_mul secs (decimal 1000000000 1))
       (decimal 9223372036854775808 1)
  && accepted.

(** ** Strict UTF-8 encoding

    One code point, as writing to a file opened with [encoding="utf-8"]
    does it; [None] stands for UnicodeEncodeError (a surrogate). *)
Definition utf8_encode_char (c : N) : option (list N) :=
  (if c <? 128 then Some [c]
   else if c <? 2048 then Some [192 + c / 64; 128 + c mod 64]
   else if c <? 65536 then
     if (55296 <=? c) && (c <=? 57343) then None
     else Some [224 + c / 4096; 128 + (c / 64) mod 64; 128 + c mod 64]
   else if c <? 1114112 then
     Some [240 + c / 262144; 128 + (c / 4096) mod 64;
           128 + (c / 64) mod 64; 128 + c mod 64]
   else None)%N.

Fixpoint utf8_encode (s : list N) : option (list N) :=
  match s with
  | [] => Some []
  | c :: r =>
      b ← utf8_encode_char c; bs ← utf8_encode r; Some (b ++ bs)
  end.

(** The text can be written to a UTF-8 file. *)
Definition encodable (s : list N) : bool :=
  match utf8_encode s with
  | Some _ => true
  | None => false
  end.

(** ** The settings and the world outside *)

(** The settings of config.ini that steer the control flow. *)
Record settings := Settings {
  sleep_time : spec_float;
  quota_threshold : spec_float;
  max_batch_chars : Z }.

(** What one POST to the translate endpoint comes to. *)
Inductive http_result :=
  | Translated (text : list N)  (* 2xx; [text] is translations[0].text *)
  | Forbidden                   (* 403: [_handle_error] calls sys.exit(1) *)
  | RequestFailed               (* a requests RequestException *)
  | Crashed.                    (* any other exception, as a KeyError *)

(** How a call ends: it returns, the process exits with code 1, or an
    exception other than a RequestException propagates. *)
Inductive call_result (A : Type) :=
  | Return (a : A)
  | SysExit
  | Raise.
Arguments Return {A} a.
Arguments SysExit {A}.
Arguments Raise {A}.

(** The remote end answers a request knowing the requests sent before. *)
Definition endpoint := list (list N) -> list N -> http_result.

(** The world outside: [post] is the remote end; [clock sent secs] tells
    whether, after the requests [sent], the clock takes the deadline of a
    delay of [secs] seconds; [disk sent i] tells whether CACHE_FILE can be
    opened and written when the segment at position [i] of the batch
    answered after the requests [sent] is stored (OSError when not). *)
Record environment := Environment {
  post : endpoint;
  clock : list (list N) -> spec_float -> bool;
  disk : list (list N) -> nat -> bool }.

(** ** [DeepLAPI] *)

(** [DeepLAPI.translate]; [sent] is the list of requests posted so far.
    The pause of line 117 comes after a 2xx answer has been read, inside
    the [try], whose [except] clause catches a RequestException only. *)
Definition translate (env : environment) (settings : settings)
    (sent : list (list N)) (text : list N)
  : call_result (list N) * list (list N) :=
  if negb (truthy (strip text)) then (Return [], sent)
  else
    let sent' := sent ++ [text] in
    match post env sent text with
    | Translated translated =>
        if time_sleep (clock env sent' (sleep_time settings))
             (sleep_time settings)
        then (Return translated, sent')
        else (Raise, sent')
    | RequestFailed => (Return [], sent')
    | Forbidden => (SysExit, sent')
    | Crashed => (Raise, sent')
    end.

(** What lines 136-153 make of period_end_time or end_time: the date
    formatted; nothing, when there is no such field or it does not parse
    (the [except] clause names TypeError, ValueError and AttributeError);
    or an exception the clause does not name, the OverflowError or the
    OSError that [datetime.fromtimestamp] raises on a timestamp beyond
    the range of the platform. *)
Inductive reset_date_result :=
  | ResetDate (text : list N)
  | ResetUnknown
  | ResetOverflowError
  | ResetOSError.

(** The body of the usage response: the two counters when present, and
    what is made of its end time. *)
Record usage_data := UsageData {
  character_count : option Z;
  character_limit : option Z;
  reset_date : reset_date_result }.

Inductive usage_reply :=
  | UsageBody (data : usage_data)
  | UsageForbidden
  | UsageRequestFailed.

(** "未知" *)
Definition UNKNOWN : list N := [26410; 30693]%N.

(** How [get_usage] can fail: the 403 exit, a RequestException, an error
    of the division, or an error of the conversion of the end time. *)
Inductive usage_error :=
  | ExitForbidden
  | RequestException
  | ZeroDivisionError
  | OverflowError
  | OSError.

(** [a / b] on Python ints: the quotient of the two integers rounded once
    to a float.  The division raises ZeroDivisionError on a zero divisor
    and OverflowError when the rounded quotient is beyond the largest
    float. *)
Definition int_truediv (a b : Z) : usage_error + spec_float :=
  if b =? 0 then inl ZeroDivisionError
  else
    match SFdiv 53 1024 (float_of_int a) (float_of_int b) with
    | S754_infinity _ => inl OverflowError
    | quotient => inr quotient
    end.

(** [reset_date_str] as lines 138-153 leave it, or the exception. *)
Definition reset_date_str (r : reset_date_result) : usage_error + list N :=
  match r with
  | ResetDate text => inr text
  | ResetUnknown => inr UNKNOWN
  | ResetOverflowError => inl OverflowError
  | ResetOSError => inl OSError
  end.

(** [DeepLAPI.get_usage].  The [0] of line 132 is an int, which compares
    and prints as the float zero. *)
Definition get_usage (reply : usage_reply)
  : usage_error + (Z * Z * spec_float * list N) :=
  match reply with
  | UsageForbidden => inl ExitForbidden
  | UsageRequestFailed => inl RequestException
  | UsageBody data =>
      let used := default 0 (character_count data) in
      let limit := default 500000 (character_limit data) in
      match (if negb (limit =? 0) then int_truediv used limit
             else inr (S754_zero false)) with
      | inl e => inl e
      | inr percentage =>
          match reset_date_str (reset_date data) with
          | inl e => inl e
          | inr reset => inr (used, limit, percentage, reset)
          end
      end
  end.

(** ** [TranslationCache] *)

(** Strict UTF-8 decoding of the bytes of a file, as [open(...,
    encoding="utf-8")] does it: [None] stands for UnicodeDecodeError. *)
Definition continuation (b : N) : bool := ((128 <=? b) && (b <=? 191))%N.

Fixpoint utf8_decode (bytes : list N) : option (list N) :=
  match bytes with
  | [] => Some []
  | b0 :: r0 =>
      if (b0 <? 128)%N then cons b0 <$> utf8_decode r0
      else if ((194 <=? b0) && (b0 <=? 223))%N then
        match r0 with
        | b1 :: r1 =>
            if continuation b1
            then cons ((b0 - 192) * 64 + (b1 - 128))%N <$> utf8_decode r1
            else None
        | _ => None
        end
      else if ((224 <=? b0) && (b0 <=? 239))%N then
        match r0 with
        | b1 :: b2 :: r2 =>
            let c := ((b0 - 224) * 4096 + (b1 - 128) * 64 + (b2 - 128))%N in
            if continuation b1 && continuation b2 && (2048 <=? c)%N
               && negb ((55296 <=? c) && (c <=? 57343))%N
            then cons c <$> utf8_decode r2
            else None
        | _ => None
        end
      else if ((240 <=? b0) && (b0 <=? 244))%N then
        match r0 with
        | b1 :: b2 :: b3 :: r3 =>
            let c := ((b0 - 240) * 262144 + (b1 - 128) * 4096
                      + (b2 - 128) * 64 + (b3 - 128))%N in
            if continuation b1 && continuation b2 && continuation b3
               && (65536 <=? c)%N && (c <=? 1114111)%N
            then cons c <$> utf8_decode r3
            else None
        | _ => None
        end
      else None
  end.

(** Text mode reads every line ending as a newline. *)
Fixpoint universal_newlines (s : list N) : list N :=
  match s with
  | [] => []
  | c :: r =>
      if (c =? 13)%N then
        NEWLINE :: match r with
                   | [] => []
                   | c' :: r' =>
                       if (c' =? NEWLINE)%N then universal_newlines r'
                       else universal_newlines r
                   end
      else c :: universal_newlines r
  end.

(** CACHE_FILE on disk: absent, or its bytes. *)
Definition cache_file := option (list N).

Inductive load_error := UnicodeDecodeError.

(** [TranslationCache._load_cache].  [json_loads] is the JSON parser on
    the decoded text, [None] standing for json.JSONDecodeError, the only
    exception the [except] clause names.  Following the annotation
    [Dict[str, str]] the parsed value is a dict of strings. *)
Definition _load_cache
    (json_loads : list N -> option (gmap (list N) (list N)))
    (file : cache_file) : load_error + gmap (list N) (list N) :=
  match file with
  | Some bytes =>
      match utf8_decode bytes with
      | None => inl UnicodeDecodeError
      | Some text =>
          match json_loads (universal_newlines text) with
          | Some d => inr d
          | None => inr ∅
          end
      end
  | None => inr ∅
  end.

(** [json.dump(self.cache, f, ensure_ascii=False, indent=2)] writes every
    key and every value with its characters as they are (quotes,
    backslashes and control characters apart) between ASCII punctuation:
    the text can be encoded exactly when every key and every value
    can. *)
Definition dumpable (cache : gmap (list N) (list N)) : bool :=
  bool_decide
    (map_Forall (λ k v, encodable k = true /\ encodable v = true) cache).

(** [TranslationCache.set] as the translation loop sees it: the dict with
    the new entry, and whether [save] returns ([writable] tells whether
    the disk takes the file). *)
Definition cache_set (writable : bool) (text translation : list N)
    (cache : gmap (list N) (list N))
  : call_result unit * gmap (list N) (list N) :=
  let cache' := <[text := translation]> cache in
  (if dumpable cache' && writable then Return tt else Raise, cache').

(** ** [process_srt_file] *)

Definition SPLIT_TOKEN : list N := py "<DEEPL_SPLIT_TOKEN>".

(** "【翻译失败或原文为空】" *)
Definition FAILED_PLACEHOLDER : list N :=
  [12304; 32763; 35793; 22833; 36133; 25110; 21407; 25991; 20026; 31354;
   12305]%N.

(** [re.sub(r"\[.*?\]|\{.*?\}", "", " ".join(text_lines)).strip()] *)
Definition english_text_of (text_lines : list (list N)) : list N :=
  strip (sub_annotations 0 (join [SPACE] text_lines)).

Record plan_state := PlanState {
  batches : list (list N * list (list N));
  current_batch_text : list N;
  current_batch_indices : list (list N);
  all_translations : gmap (list N) (list N) }.

(** One turn of the planning loop (lines 209-230). *)
Definition plan_step (cache : gmap (list N) (list N)) (MAX_CHARS : Z)
    (st : plan_state) (block : list N) : plan_state :=
  let lines := split [NEWLINE] block in
  if (length lines <? 2)%nat then st
  else
    let english_text := english_text_of (drop 2 lines) in
    match cache !! english_text with
    | Some cached_translation =>
        PlanState (batches st) (current_batch_text st)
          (current_batch_indices st)
          (<[english_text := cached_translation]> (all_translations st))
    | None =>
        let text_to_add := english_text ++ SPLIT_TOKEN in
        let st1 :=
          if (Z.of_nat (length (current_batch_text st))
              + Z.of_nat (length text_to_add) >? MAX_CHARS)
             && truthy (current_batch_text st)
          then PlanState
                 (batches st
                  ++ [(current_batch_text st, current_batch_indices st)])
                 [] [] (all_translations st)
          else st in
        PlanState (batches st1) (current_batch_text st1 ++ text_to_add)
          (current_batch_indices st1 ++ [english_text])
          (all_translations st1)
    end.

(** The planning loop with the final flush (lines 203-233): the batches
    and the result map holding the cache hits. *)
Definition plan (cache : gmap (list N) (list N)) (MAX_CHARS : Z)
    (indexed_blocks : list (list N))
  : list (list N * list (list N)) * gmap (list N) (list N) :=
  let st := fold_left (plan_step cache MAX_CHARS) indexed_blocks
              (PlanState [] [] [] ∅) in
  (if truthy (current_batch_text st)
   then batches st ++ [(current_batch_text st, current_batch_indices st)]
   else batches st,
   all_translations st).

(** The inner loop over [enumerate(original_texts)] (lines 247-251),
    from position [i] on; [maps] are the result map and the dict of the
    cache.  Line 250 writes the result map, then [cache.set] writes the
    dict and saves it; when [save] raises the loop is left with both
    written.  [writable i] tells whether the disk takes the file at
    position [i]. *)
Fixpoint store_segments (writable : nat -> bool)
    (translated_segments : list (list N)) (i : nat)
    (original_texts : list (list N))
    (maps : gmap (list N) (list N) * gmap (list N) (list N))
  : call_result unit * (gmap (list N) (list N) * gmap (list N) (list N)) :=
  match original_texts with
  | [] => (Return tt, maps)
  | original_text :: rest =>
      if (i <? length translated_segments)%nat
         && truthy (strip (nth i translated_segments []))
      then
        let translation := strip (nth i translated_segments []) in
        let all_translations := <[original_text := translation]> maps.1 in
        match cache_set (writable i) original_text translation maps.2 with
        | (Return _, cache) =>
            store_segments writable translated_segments (S i) rest
              (all_translations, cache)
        | (_, cache) => (Raise, (all_translations, cache))
        end
      else store_segments writable translated_segments (S i) rest maps
  end.

(** What is done with the response to one batch (lines 244-254). *)
Definition merge_response (writable : nat -> bool)
    (translated_batch_text : list N) (original_texts : list (list N))
    (maps : gmap (list N) (list N) * gmap (list N) (list N))
  : call_result unit * (gmap (list N) (list N) * gmap (list N) (list N)) :=
  if truthy translated_batch_text
  then store_segments writable (split SPLIT_TOKEN translated_batch_text) 0
         original_texts maps
  else (Return tt, maps).

Record translate_state := TranslateState {
  result_map : gmap (list N) (list N);
  cache_dict : gmap (list N) (list N);
  requests : list (list N) }.

(** The loop over the batches (lines 238-254).  It stops when a call
    does not return. *)
Fixpoint translate_batches (env : environment) (settings : settings)
    (bs : list (list N * list (list N))) (st : translate_state)
  : call_result unit * translate_state :=
  match bs with
  | [] => (Return tt, st)
  | (batch_text, original_texts) :: rest =>
      match translate env settings (requests st) batch_text with
      | (Return translated_batch_text, sent) =>
          match merge_response (disk env sent) translated_batch_text
                  original_texts (result_map st, cache_dict st) with
          | (Return _, maps) =>
              translate_batches env settings rest
                (TranslateState maps.1 maps.2 sent)
          | (_, maps) => (Raise, TranslateState maps.1 maps.2 sent)
          end
      | (SysExit, sent) =>
          (SysExit, TranslateState (result_map st) (cache_dict st) sent)
      | (Raise, sent) =>
          (Raise, TranslateState (result_map st) (cache_dict st) sent)
      end
  end.

(** [x or d] on an optional string: [None] and the empty string are
    both false. *)
Definition or_else (x : option (list N)) (d : list N) : list N :=
  match x with
  | Some (c :: s) => c :: s
  | _ => d
  end.

(** One turn of the reassembly loop (lines 257-273). *)
Definition reassemble_step (all_translations cache : gmap (list N) (list N))
    (new_blocks : list (list N)) (block : list N) : list (list N) :=
  let lines := split [NEWLINE] block in
  if (length lines <? 2)%nat then new_blocks ++ [block]
  else
    let index := nth 0 lines [] in
    let timestamp := nth 1 lines [] in
    let text_lines := drop 2 lines in
    let english_text := english_text_of text_lines in
    let translated :=
      or_else (all_translations !! english_text)
        (or_else (cache !! english_text) FAILED_PLACEHOLDER) in
    let original_lines := filter (λ l, truthy (strip l) = true) text_lines in
    new_blocks
    ++ [join [NEWLINE] ([index; timestamp] ++ original_lines ++ [translated])].

(** The text written to the output file (lines 256-281). *)
Definition reassemble (all_translations cache : gmap (list N) (list N))
    (indexed_blocks : list (list N)) : list N :=
  join [NEWLINE; NEWLINE]
    (fold_left (reassemble_step all_translations cache) indexed_blocks [])
  ++ [NEWLINE; NEWLINE].

(** How the processing of one file ends. *)
Inductive file_result :=
  | Written (output : list N)  (* the .zh.srt file is written *)
  | FileFailed                 (* an exception, caught and reported *)
  | Exited.                    (* sys.exit(1) inside the API client *)

Record file_run := FileRun {
  result : file_result;
  cache_after : gmap (list N) (list N);
  requests_after : list (list N) }.

(** [output_file.write_text(text, encoding="utf-8")] of line 281: the
    file is written, or the text cannot be encoded and the
    UnicodeEncodeError is caught at line 284. *)
Definition write_text (text : list N) : file_result :=
  if encodable text then Written text else FileFailed.

(** The body of [process_srt_file] from line 203 on, given the list
    [indexed_blocks]. *)
Definition process_indexed_blocks (env : environment) (settings : settings)
    (indexed_blocks : list (list N)) (cache : gmap (list N) (list N))
    (sent : list (list N)) : file_run :=
  let MAX_CHARS := max_batch_chars settings in
  let planned := plan cache MAX_CHARS indexed_blocks in
  match translate_batches env settings planned.1
          (TranslateState planned.2 cache sent) with
  | (Return _, st) =>
      FileRun (write_text (reassemble (result_map st) (cache_dict st)
                             indexed_blocks))
        (cache_dict st) (requests st)
  | (SysExit, st) => FileRun Exited (cache_dict st) (requests st)
  | (Raise, st) => FileRun FileFailed (cache_dict st) (requests st)
  end.

(** *** Cutting the text into blocks (lines 197-200)

    The caption header
    [\d+\n\d{2}:\d{2}:\d{2},\d{3} --> \d{2}:\d{2}:\d{2},\d{3}\n].
    [is_decimal] is the table of the Unicode decimal digits, which [\d]
    matches. *)
Inductive item :=
  | Digit
  | Lit (c : N).

(** The ASCII part of the table, the digits 0 to 9. *)
Definition ascii_decimal (c : N) : bool := ((48 <=? c) && (c <=? 57))%N.

Definition TIMESTAMP : list item :=
  [Digit; Digit; Lit 58; Digit; Digit; Lit 58; Digit; Digit; Lit 44;
   Digit; Digit; Digit]%N.

(** The pattern after its leading [\d+]. *)
Definition HEADER_TAIL : list item :=
  [Lit NEWLINE] ++ TIMESTAMP ++ (Lit <$> py " --> ") ++ TIMESTAMP
  ++ [Lit NEWLINE].

(** Number of characters the items match at the head of [s]. *)
Fixpoint match_items (is_decimal : N -> bool) (items : list item)
    (s : list N) : option nat :=
  match items with
  | [] => Some 0%nat
  | it :: items' =>
      match s with
      | [] => None
      | c :: r =>
          if match it with
             | Digit => is_decimal c
             | Lit l => (c =? l)%N
             end
          then S <$> match_items is_decimal items' r
          else None
      end
  end.

(** Length of the match of the whole pattern at the head of [s]: [\d+]
    is greedy and gives digits back when the rest does not follow. *)
Fixpoint match_header (is_decimal : N -> bool) (s : list N) : option nat :=
  match s with
  | [] => None
  | c :: r =>
      if is_decimal c then
        match match_header is_decimal r with
        | Some n => Some (S n)
        | None => S <$> match_items is_decimal HEADER_TAIL r
        end
      else None
  end.

(** [re.split] with the pattern in one capturing group: the pieces of
    text between the matches, with the matched headers in between. *)
Fixpoint re_split (is_decimal : N -> bool) (skip : nat) (cur s : list N)
  : list (list N) :=
  match s with
  | [] => [reverse cur]
  | c :: r =>
      match skip with
      | S k => re_split is_decimal k cur r
      | O =>
          match match_header is_decimal s with
          | Some n =>
              reverse cur :: take n s :: re_split is_decimal (n - 1) [] r
          | None => re_split is_decimal 0 (c :: cur) r
          end
      end
  end.

(** [[blocks[i] + blocks[i+1] for i in range(0, len(blocks), 2)]];
    [None] is the IndexError of an odd length. *)
Fixpoint pair_up (blocks : list (list N)) : option (list (list N)) :=
  match blocks with
  | [] => Some []
  | [_] => None
  | header :: text :: rest => cons (header ++ text) <$> pair_up rest
  end.

Definition parse_blocks (is_decimal : N -> bool) (content : list N)
  : option (list (list N)) :=
  pair_up (drop 1 (re_split is_decimal 0 [] (strip content))).

(** [process_srt_file].  [content] is the text that
    [detect_file_encoding] and [read_text] give, [None] when reading
    raises. *)
Definition process_srt_file (is_decimal : N -> bool) (env : environment)
    (settings : settings) (content : option (list N))
    (cache : gmap (list N) (list N)) (sent : list (list N)) : file_run :=
  match content ≫= parse_blocks is_decimal with
  | Some indexed_blocks =>
      process_indexed_blocks env settings indexed_blocks cache sent
  | None => FileRun FileFailed cache sent
  end.

(** ** [main] *)

(** The three messages of the quota check (lines 317-330). *)
Inductive quota_message :=
  | QuotaExhausted  (* "配额即将耗尽", followed by sys.exit(1) *)
  | QuotaWarning    (* "配额使用警告" *)
  | QuotaPassed.    (* "配额检查通过" *)

(** The two tests of lines 317 and 323, on floats; [decimal 15 100] is
    the literal 0.15. *)
Definition quota_check (percentage quota_threshold : spec_float)
  : quota_message :=
  if float_gt percentage quota_threshold then QuotaExhausted
  else if float_gt percentage (float_sub quota_threshold (decimal 15 100))
  then QuotaWarning
  else QuotaPassed.

(** The loop over the files (lines 353-354): every file is processed with
    the cache and the API as the file before left them; a sys.exit inside
    a file ends the loop.  The boolean tells whether that happened. *)
Fixpoint process_files (is_decimal : N -> bool) (env : environment)
    (settings : settings) (srt_files : list (option (list N)))
    (cache : gmap (list N) (list N)) (sent : list (list N))
  : bool * list file_run :=
  match srt_files with
  | [] => (false, [])
  | content :: rest =>
      let r := process_srt_file is_decimal env settings content cache sent in
      match result r with
      | Exited => (true, [r])
      | _ =>
          let rs := process_files is_decimal env settings rest
                      (cache_after r) (requests_after r) in
          (rs.1, r :: rs.2)
      end
  end.

Record main_run := MainRun {
  exit_code : Z;
  quota_report : option quota_message;
  files_processed : list file_run }.

(** [main].  [config] is [None] when the dependencies or config.ini fail
    to load; [usage] is what the usage endpoint answers; [file] is
    CACHE_FILE; [srt_files] are the *.srt files found, each as the text
    read from it.  An uncaught exception ends the process with code 1. *)
Definition main (is_decimal : N -> bool)
    (json_loads : list N -> option (gmap (list N) (list N)))
    (config : option settings) (usage : usage_reply) (file : cache_file)
    (env : environment) (srt_files : list (option (list N))) : main_run :=
  match config with
  | None => MainRun 1 None []
  | Some settings =>
      match get_usage usage with
      | inl _ => MainRun 1 None []
      | inr (used, limit, percentage, reset_date_str) =>
          match quota_check percentage (quota_threshold settings) with
          | QuotaExhausted => MainRun 1 (Some QuotaExhausted) []
          | message =>
              match _load_cache json_loads file with
              | inl _ => MainRun 1 (Some message) []
              | inr cache =>
                  let rs := process_files is_decimal env settings srt_files
                              cache [] in
                  MainRun (if rs.1 then 1 else 0) (Some message) rs.2
              end
          end
      end
  end.

(** ** Vocabulary of the specification

    A unit is well formed when its block has at least two lines; its
    clean text is computed from the lines after the first two. *)
Definition well_formed (block : list N) : bool :=
  negb (length (split [NEWLINE] block) <? 2)%nat.

Definition clean_text (block : list N) : list N :=
  english_text_of (drop 2 (split [NEWLINE] block)).

(** The clean texts of the well-formed units, in file order, with their
    repetitions. *)
Definition clean_texts (indexed_blocks : list (list N)) : list (list N) :=
  clean_text <$> filter (λ b, well_formed b = true) indexed_blocks.

(** Those among them that the cache does not hold. *)
Definition uncached (cache : gmap (list N) (list N))
    (indexed_blocks : list (list N)) : list (list N) :=
  filter (λ t, cache !! t = None) (clean_texts indexed_blocks).

(** The string of a batch: each text followed by the delimiter. *)
Definition batch_string (texts : list (list N)) : list N :=
  concat ((λ t, t ++ SPLIT_TOKEN) <$> texts).

(** A batch respects the budget, or is a single text that alone, with
    its delimiter, exceeds it. *)
Definition within_budget (MAX_CHARS : Z) (batch : list N * list (list N))
  : Prop :=
  batch.1 = batch_string batch.2
  /\ batch.2 <> []
  /\ (Z.of_nat (length batch.1) <= MAX_CHARS
      \/ exists t, batch.2 = [t]
                   /\ MAX_CHARS < Z.of_nat (length (t ++ SPLIT_TOKEN))).

(** The invariant of the planning loop after the blocks [done]. *)
Definition plan_inv (cache : gmap (list N) (list N)) (MAX_CHARS : Z)
    (done : list (list N)) (st : plan_state) : Prop :=
  concat (snd <$> batches st) ++ current_batch_indices st
  = uncached cache done
  /\ current_batch_text st = batch_string (current_batch_indices st)
  /\ Forall (within_budget MAX_CHARS) (batches st)
  /\ (current_batch_indices st = []
      \/ within_budget MAX_CHARS
           (current_batch_text st, current_batch_indices st))
  /\ forall t, all_translations st !! t
               = if decide (t ∈ clean_texts done) then cache !! t else None.

(** The pairs a batch response records, in the words of the
    specification: the response is split at the delimiter and zipped by
    position with the source texts of the batch; a pair is kept when its
    segment is not empty once stripped. *)
Definition recorded (translated_batch_text : list N)
    (original_texts : list (list N)) : list (list N * list N) :=
  omap (λ p, if truthy (strip p.2) then Some (p.1, strip p.2) else None)
    (zip original_texts (split SPLIT_TOKEN translated_batch_text)).

(** The same from position [i] of the segments on. *)
Definition recorded_from (translated_segments : list (list N)) (i : nat)
    (original_texts : list (list N)) : list (list N * list N) :=
  omap (λ p, if truthy (strip p.2) then Some (p.1, strip p.2) else None)
    (zip original_texts (drop i translated_segments)).

(** Position [i] of a batch has a segment to record: the text [t] with
    the translation [v]. *)
Definition has_segment (translated_segments : list (list N))
    (original_texts : list (list N)) (i : nat) (t v : list N) : Prop :=
  original_texts !! i = Some t
  /\ exists seg, translated_segments !! i = Some seg
                 /\ strip seg <> [] /\ v = strip seg.

(** A code point that UTF-8 encodes: a Unicode scalar value. *)
Definition scalar (c : N) : Prop := utf8_encode_char c <> None.

(** A world whose clock and disk never refuse, around a remote end. *)
Definition steady (post : endpoint) : environment :=
  Environment post (fun _ _ => true) (fun _ _ => true).

(** Settings for the examples: a pause of half a second, the threshold
    0.9 and batches of 45000 characters. *)
Definition example_settings : settings :=
  Settings (decimal 5 10) (decimal 9 10) 45000.

(** Writing one pair into the result map and into the cache. *)
Definition record (maps : gmap (list N) (list N) * gmap (list N) (list N))
    (p : list N * list N)
  : gmap (list N) (list N) * gmap (list N) (list N) :=
  (<[p.1 := p.2]> maps.1, <[p.1 := p.2]> maps.2).

(** The blocks the reassembly loop collects. *)
Definition new_blocks_of (all_translations cache : gmap (list N) (list N))
    (indexed_blocks : list (list N)) : list (list N) :=
  fold_left (reassemble_step all_translations cache) indexed_blocks [].

(** The translated line in the words of the specification: the entry of
    the result map, else the entry of the cache, else the placeholder. *)
Definition first_present (all_translations cache : gmap (list N) (list N))
    (t : list N) : list N :=
  match all_translations !! t with
  | Some v => v
  | None => default FAILED_PLACEHOLDER (cache !! t)
  end.

(** What the code does: an entry counts when it is present and not the
    empty string. *)
Definition first_nonempty (all_translations cache : gmap (list N) (list N))
    (t translated : list N) : Prop :=
  (all_translations !! t = Some translated /\ translated <> [])
  \/ ((all_translations !! t = None \/ all_translations !! t = Some [])
      /\ ((cache !! t = Some translated /\ translated <> [])
          \/ ((cache !! t = None \/ cache !! t = Some [])
              /\ translated = FAILED_PLACEHOLDER))).

(** The state the translation loop ends in for a file. *)
Definition translated_state (env : environment) (settings : settings)
    (indexed_blocks : list (list N)) (cache : gmap (list N) (list N))
    (sent : list (list N)) : call_result unit * translate_state :=
  translate_batches env settings
    (plan cache (max_batch_chars settings) indexed_blocks).1
    (TranslateState (plan cache (max_batch_chars settings) indexed_blocks).2
       cache sent).



(** A list of pieces that alternates headers and texts, every header
    holding a newline. *)
Fixpoint headers_ok (pieces : list (list N)) : Prop :=
  match pieces with
  | [] => True
  | [_] => False
  | header :: _ :: rest => NEWLINE ∈ header /\ headers_ok rest
  end.

(** ** [TranslationCache.save] and [set], with the file *)

(** Text mode writes every newline as the line separator of the
    platform: a newline, or ([crlf]) a carriage return and a newline. *)
Fixpoint write_newlines (crlf : bool) (s : list N) : list N :=
  match s with
  | [] => []
  | c :: r =>
      if (c =? NEWLINE)%N && crlf then 13%N :: NEWLINE :: write_newlines crlf r
      else c :: write_newlines crlf r
  end.

(** [TranslationCache.save]: the bytes CACHE_FILE holds afterwards, [None]
    when the write raises.  [dumped] is the text
    [json.dump(self.cache, f, ensure_ascii=False, indent=2)] produces. *)
Definition save (crlf : bool) (dumped : list N) : option (list N) :=
  utf8_encode (write_newlines crlf dumped).

(** [TranslationCache.set]: the dict afterwards and what [save] leaves on
    disk.  [json_dump] stands for the text json.dump produces for the
    dict at hand (it lists the entries in insertion order, which the map
    does not record). *)
Definition set (json_dump : gmap (list N) (list N) -> list N) (crlf : bool)
    (text translation : list N) (cache : gmap (list N) (list N))
  : gmap (list N) (list N) * option (list N) :=
  let cache' := <[text := translation]> cache in
  (cache', save crlf (json_dump cache')).

(** ** The names of the files (lines 280 and 344) *)

Definition ends_with (suffix s : list N) : bool :=
  starts_with (reverse suffix) (reverse s).

Definition ZH_SRT : list N := py ".zh.srt".

(** [[f for f in ... if not f.name.endswith(".zh.srt")]] over the names
    the glob gives. *)
Definition select_srt_files (globbed : list (list N)) : list (list N) :=
  filter (λ name, ends_with ZH_SRT name = false) globbed.

(** [Path.suffix] on a file name: from the last dot on, when that dot is
    neither the first nor the last character. *)
Fixpoint rfind_dot (i : nat) (s : list N) : option nat :=
  match s with
  | [] => None
  | c :: r =>
      match rfind_dot (S i) r with
      | Some j => Some j
      | None => if (c =? 46)%N then Some i else None
      end
  end.

Definition path_suffix (name : list N) : list N :=
  match rfind_dot 0 name with
  | Some i =>
      if (0 <? i)%nat && (i <? length name - 1)%nat then drop i name else []
  | None => []
  end.

(** [Path.with_suffix] on a file name, for a rule [suffix] that tells the
    old suffix of a name. *)
Definition with_suffix (suffix : list N -> list N) (name new : list N)
  : list N :=
  take (length name - length (suffix name)) name ++ new.

(** [file_path.with_suffix(".zh.srt")] *)
Definition output_name (suffix : list N -> list N) (name : list N) : list N :=
  with_suffix suffix name ZH_SRT.

(** ** [load_config_settings] *)

Inductive config_error :=
  | ConfigMissing      (* EnvironmentError: the file does not exist *)
  | ConfigUnreadable   (* config.read raises, outside the try *)
  | ConfigIncomplete   (* EnvironmentError, from a configparser.Error *)
  | ConfigBadValue     (* EnvironmentError, from a ValueError *)
  | ConfigEmptyKey.    (* EnvironmentError: api_key is empty *)

(** config.ini: absent, not parsable, or parsed, in which case it is known
    by what [config.get(section, option)] returns ([None] when it raises
    a configparser.Error). *)
Inductive config_file :=
  | NoFile
  | BadFile
  | Ini (get : list N -> list N -> option (list N)).

Record config := Config {
  api_key : list N;
  translate_url : list N;
  usage_url : list N;
  flow : settings }.

(** Sequencing of steps that may raise. *)
Definition and_then {A B} (x : config_error + A) (k : A -> config_error + B)
  : config_error + B :=
  match x with
  | inl e => inl e
  | inr a => k a
  end.

(** [config.get(section, key)] *)
Definition config_get (get : list N -> list N -> option (list N))
    (section key : string) : config_error + list N :=
  match get (py section) (py key) with
  | Some v => inr v
  | None => inl ConfigIncomplete
  end.

(** [config.getfloat] and [config.getint]: [conv] is Python's [float()]
    or [int()] on the string, [None] for ValueError. *)
Definition config_getnumber {A} (conv : list N -> option A)
    (get : list N -> list N -> option (list N)) (section key : string)
  : config_error + A :=
  and_then (config_get get section key)
    (fun v => match conv v with
              | Some x => inr x
              | None => inl ConfigBadValue
              end).

Definition load_config_settings (to_float : list N -> option spec_float)
    (to_int : list N -> option Z) (file : config_file)
  : config_error + config :=
  match file with
  | NoFile => inl ConfigMissing
  | BadFile => inl ConfigUnreadable
  | Ini get =>
      and_then (config_get get "deepl" "api_key") (fun key =>
      and_then (config_get get "deepl" "translate_url") (fun t_url =>
      and_then (config_get get "deepl" "usage_url") (fun u_url =>
      and_then (config_getnumber to_float get "settings" "sleep_time")
        (fun sleep =>
      and_then (config_getnumber to_float get "settings" "quota_threshold")
        (fun threshold =>
      and_then (config_getnumber to_int get "settings" "max_batch_chars")
        (fun max_chars =>
      if negb (truthy (strip key)) then inl ConfigEmptyKey
      else inr (Config (strip key) (strip t_url) (strip u_url)
                  (Settings sleep threshold max_chars))))))))
  end.

(** ** Vocabulary of the further properties

    The planner closes a batch only when it must: the text that opens
    the next batch would not have fitted into the one before it. *)
Definition overflows (MAX_CHARS : Z) (b1 b2 : list N * list (list N))
  : Prop :=
  exists t rest,
    b2.2 = t :: rest
    /\ MAX_CHARS
       < Z.of_nat (length b1.1) + Z.of_nat (length (t ++ SPLIT_TOKEN)).

Fixpoint packed (MAX_CHARS : Z) (bs : list (list N * list (list N)))
  : Prop :=
  match bs with
  | b1 :: tl =>
      match tl with
      | b2 :: _ => overflows MAX_CHARS b1 b2 /\ packed MAX_CHARS tl
      | [] => True
      end
  | [] => True
  end.

(** The batches of a planning state, the one being built included. *)
Definition all_batches (st : plan_state) : list (list N * list (list N)) :=
  batches st
  ++ match current_batch_indices st with
     | [] => []
     | _ => [(current_batch_text st, current_batch_indices st)]
     end.

(** No caption header begins at one of the first [n] positions of [s]. *)
Definition no_header_before (is_decimal : N -> bool) (n : nat) (s : list N)
  : Prop :=
  forall j, (j < n)%nat -> match_header is_decimal (drop j s) = None.

(** The pieces [re.split] gives after the first one: headers and texts
    in turn, each header a match of the pattern where it stands, and no
    match beginning inside the text that follows it. *)
Fixpoint pieces_cut (is_decimal : N -> bool) (pieces : list (list N))
  : Prop :=
  match pieces with
  | [] => True
  | [_] => False
  | header :: text :: rest =>
      match_header is_decimal (header ++ text ++ concat rest)
      = Some (length header)
      /\ no_header_before is_decimal (length text) (text ++ concat rest)
      /\ pieces_cut is_decimal rest
  end.

(** The blocks are cut at the caption headers of the text they make up:
    each block begins with a header, and no header begins further inside
    it. *)
Fixpoint cut_at_headers (is_decimal : N -> bool) (blocks : list (list N))
  : Prop :=
  match blocks with
  | [] => True
  | block :: rest =>
      (exists n,
         match_header is_decimal (block ++ concat rest) = Some n
         /\ (n <= length block)%nat
         /\ forall j, (n <= j < length block)%nat ->
              match_header is_decimal (drop j (block ++ concat rest)) = None)
      /\ cut_at_headers is_decimal rest
  end.

(** A text holds no annotation that the pattern would match on one
    line: no opening bracket with a closing bracket after it, no opening
    brace with a closing brace after it. *)
Definition annotation_free (t : list N) : Prop :=
  forall p q,
    (t = p ++ 91%N :: q -> 93%N ∉ q) /\ (t = p ++ 123%N :: q -> 125%N ∉ q).

(** * Properties *)

(** ** Strings and the parser *)

Example sub_annotations_example :
  sub_annotations 0 (py "a[b{c]d}e[f" ++ [NEWLINE] ++ py "]g{}h[[x]]")
  = py "ad}e[f" ++ [NEWLINE] ++ py "]gh]".
Proof. reflexivity. Qed.

Example split_example :
  split (py "<T>") (py "a<T>b<T>") = [py "a"; py "b"; []]
  /\ split (py "<T>") [] = [[]]
  /\ split (py "aa") (py "aaa") = [[]; py "a"].
Proof. repeat split; reflexivity. Qed.

Example utf8_decode_example :
  utf8_decode [72; 105; 32; 228; 189; 160]%N = Some [72; 105; 32; 20320]%N
  /\ utf8_decode [228; 189]%N = None
  /\ utf8_decode [255]%N = None.
Proof. repeat split; reflexivity. Qed.

Example parse_blocks_example :
  parse_blocks ascii_decimal
    (py "junk" ++ [NEWLINE] ++ py "1" ++ [NEWLINE]
     ++ py "00:00:01,000 --> 00:00:02,000" ++ [NEWLINE]
     ++ py "Hello [music] world" ++ [NEWLINE; NEWLINE] ++ py "12"
     ++ [NEWLINE] ++ py "00:00:03,000 --> 00:00:04,000" ++ [NEWLINE]
     ++ py "Bye" ++ [NEWLINE])
  = Some [py "1" ++ [NEWLINE] ++ py "00:00:01,000 --> 00:00:02,000"
          ++ [NEWLINE] ++ py "Hello [music] world" ++ [NEWLINE; NEWLINE];
          py "12" ++ [NEWLINE] ++ py "00:00:03,000 --> 00:00:04,000"
          ++ [NEWLINE] ++ py "Bye"].
Proof. vm_compute. reflexivity. Qed.

Lemma split_from_nonempty sep skip cur (s : list N) :
  split_from sep skip cur s <> [].
Proof.
  revert skip cur. induction s as [| c r IH]; intros skip cur; simpl.
  - discriminate.
  - destruct skip; [| apply IH].
    destruct (starts_with sep (c :: r)); [discriminate | apply IH].
Qed.

Lemma newline_two_lines (s : list N) :
  NEWLINE ∈ s -> well_formed s = true.
Proof.
  unfold well_formed, split. rewrite negb_true_iff, Nat.ltb_ge.
  set (sep := [NEWLINE]). generalize (@nil N). subst sep.
  induction s as [| c r IH]; intros cur Hin.
  - by apply elem_of_nil in Hin.
  - cbn [split_from starts_with].
    destruct (N.eqb_spec NEWLINE c) as [<- | Hne]; cbn [andb].
    + pose proof (split_from_nonempty [NEWLINE] (length [NEWLINE] - 1) [] r).
      destruct (split_from _ _ _ r); [done | simpl; lia].
    + apply IH. apply elem_of_cons in Hin as [E | Hin]; [congruence | done].
Qed.

Lemma match_items_newline is_decimal items (r : list N) m :
  match_items is_decimal (Lit NEWLINE :: items) r = Some m ->
  NEWLINE ∈ take m r.
Proof.
  destruct r as [| c r]; cbn [match_items]; [done |].
  destruct (N.eqb_spec c NEWLINE) as [-> | Hne]; [| done].
  destruct (match_items is_decimal items r); [| done].
  intros [= <-]. left.
Qed.

Lemma match_header_newline is_decimal (s : list N) n :
  match_header is_decimal s = Some n -> NEWLINE ∈ take n s.
Proof.
  revert n. induction s as [| c r IH]; intros n; cbn [match_header];
    [done |].
  destruct (is_decimal c); [| done].
  destruct (match_header is_decimal r) as [m |].
  - intros [= <-]. right. now apply IH.
  - destruct (match_items is_decimal HEADER_TAIL r) as [m |] eqn:E; [| done].
    intros [= <-]. right.
    exact (match_items_newline is_decimal _ r m E).
Qed.

Lemma re_split_shape is_decimal skip cur (s : list N) :
  exists first pieces,
    re_split is_decimal skip cur s = first :: pieces /\ headers_ok pieces.
Proof.
  revert skip cur. induction s as [| c r IH]; intros skip cur;
    cbn [re_split].
  - exists (reverse cur), []. done.
  - destruct skip as [| k]; [| apply IH].
    destruct (match_header is_decimal (c :: r)) as [n |] eqn:Hm; [| apply IH].
    pose proof (match_header_newline is_decimal _ _ Hm) as Hnl.
    destruct (IH (n - 1)%nat []) as (first & pieces & -> & Hok).
    exists (reverse cur). eexists. split; [reflexivity |].
    split; [exact Hnl | exact Hok].
Qed.

Lemma pair_up_headers_ok (pieces : list (list N)) :
  headers_ok pieces ->
  exists blocks,
    pair_up pieces = Some blocks
    /\ Forall (λ b, well_formed b = true) blocks.
Proof.
  induction pieces as [pieces IH] using (induction_ltof1 _ length).
  unfold ltof in IH.
  destruct pieces as [| header [| text rest]]; simpl; [eauto | done |].
  intros [Hnl Hok]. destruct (IH rest) as (blocks & -> & Hwf);
    [simpl; lia | exact Hok |].
  eexists. split; [reflexivity |]. constructor; [| exact Hwf].
  apply newline_two_lines, elem_of_app. now left.
Qed.

(** Whatever the text of the file, cutting it into blocks succeeds, and
    every block begins with a header and so has at least two lines: the
    test [len(lines) < 2] of the two loops never holds on a block that
    comes from a file. *)
Lemma parse_blocks_well_formed is_decimal (content : list N) :
  exists indexed_blocks,
    parse_blocks is_decimal content = Some indexed_blocks
    /\ Forall (λ b, well_formed b = true) indexed_blocks.
Proof.
  unfold parse_blocks.
  destruct (re_split_shape is_decimal 0 [] (strip content))
    as (first & pieces & -> & Hok).
  cbn [drop]. now apply pair_up_headers_ok.
Qed.

(** ** The usage query and the quota gate *)

Example float_literals :
  decimal 15 100 = S754_finite false 5404319552844595 (-55)
  /\ decimal 9 10 = S754_finite false 8106479329266893 (-53)
  /\ float_sub (decimal 9 10) (decimal 15 100) = decimal 75 100
  /\ float_sub (decimal 6 10) (decimal 15 100)
     = S754_finite false 8106479329266892 (-54)
  /\ decimal 45 100 = S754_finite false 8106479329266893 (-54).
Proof. vm_compute. repeat split. Qed.

Example int_truediv_example :
  int_truediv 225000 500000 = inr (decimal 45 100)
  /\ int_truediv 0 (-5) = inr (S754_zero true)
  /\ int_truediv 1 0 = inl ZeroDivisionError
  /\ int_truediv (2 ^ 1024) 1 = inl OverflowError
  /\ int_truediv (2 ^ 1024 - 2 ^ 970 - 1) 1
     = inr (S754_finite false 9007199254740991 971)
  /\ int_truediv 1 (10 ^ 400) = inr (S754_zero false).
Proof. vm_compute. repeat split. Qed.

Example time_sleep_example :
  time_sleep true (decimal 5 10) = true
  /\ time_sleep true (S754_zero true) = true
  /\ time_sleep true (decimal (-1) 2) = false
  /\ time_sleep true S754_nan = false
  /\ time_sleep true (S754_infinity false) = false
  /\ time_sleep true (decimal 10000000000 1) = false
  /\ time_sleep true (decimal 9200000000 1) = true
  /\ time_sleep false (decimal 9200000000 1) = false.
Proof. vm_compute. repeat split. Qed.

(** The rounding of a quotient of naturals does not leave the naturals. *)
Lemma shr_1_nonneg mrs : 0 <= shr_m mrs -> 0 <= shr_m (shr_1 mrs).
Proof.
  destruct mrs as [m r s]. cbn [shr_m shr_1].
  destruct m as [| [p | p |] | p]; cbn [shr_m]; lia.
Qed.

Lemma iter_pos_shr_1_nonneg (n : positive) mrs :
  0 <= shr_m mrs -> 0 <= shr_m (SpecFloat.iter_pos shr_1 n mrs).
Proof.
  revert mrs. induction n as [n IH | n IH |]; intros mrs H; cbn [SpecFloat.iter_pos].
  - apply IH, IH, shr_1_nonneg, H.
  - apply IH, IH, H.
  - apply shr_1_nonneg, H.
Qed.

Lemma shr_fexp_nonneg prec emax m e l :
  0 <= m -> 0 <= shr_m (shr_fexp prec emax m e l).1.
Proof.
  intros H. unfold shr_fexp, shr.
  assert (0 <= shr_m (shr_record_of_loc m l)) as H0
    by (destruct l as [| []]; exact H).
  destruct (_ - e); cbn [fst]; [exact H0 | | exact H0].
  apply iter_pos_shr_1_nonneg, H0.
Qed.

Lemma round_nearest_even_nonneg m l : 0 <= m -> 0 <= round_nearest_even m l.
Proof.
  intros H. destruct l as [| []]; cbn [round_nearest_even]; try lia.
  destruct (Z.even m); lia.
Qed.

Lemma binary_round_aux_not_nan prec emax s m e l :
  0 <= m -> binary_round_aux prec emax s m e l <> S754_nan.
Proof.
  intros H. unfold binary_round_aux.
  pose proof (shr_fexp_nonneg prec emax m e l H) as H1.
  destruct (shr_fexp prec emax m e l) as [mrs' e']. cbn [fst] in H1.
  pose proof (shr_fexp_nonneg prec emax _ e' loc_Exact
                (round_nearest_even_nonneg _ (loc_of_shr_record mrs') H1)) as H2.
  destruct (shr_fexp prec emax _ e' loc_Exact) as [mrs'' e'']. cbn [fst] in H2.
  destruct (shr_m mrs''); [discriminate | | lia].
  destruct (_ <=? _); discriminate.
Qed.

Lemma SFdiv_core_binary_nonneg prec emax m1 e1 m2 e2 :
  0 <= m1 -> 0 < m2 ->
  0 <= (SFdiv_core_binary prec emax m1 e1 m2 e2).1.1.
Proof.
  intros H1 H2. unfold SFdiv_core_binary. cbv zeta.
  set (m' := match _ - _ - _ with 0 => m1 | Z.pos _ => _ | Z.neg _ => 0 end).
  assert (0 <= m') as Hm.
  { subst m'. destruct (_ - _ - _); [exact H1 | | lia].
    apply Z.shiftl_nonneg, H1. }
  pose proof (Z_div_mod m' m2 ltac:(lia)) as Hd.
  change IntDef.Z.div_eucl with Z.div_eucl.
  destruct (Z.div_eucl m' m2) as [q r]. cbn [fst]. nia.
Qed.

(** The quotient of two integers is never NaN when the divisor is not 0. *)
Lemma SFdiv_int_not_nan (a b : Z) :
  b <> 0 -> SFdiv 53 1024 (float_of_int a) (float_of_int b) <> S754_nan.
Proof.
  intros Hb.
  destruct a as [| ma | ma], b as [| mb | mb]; try contradiction;
    cbn [float_of_int SFdiv]; try discriminate.
  all: pose proof (SFdiv_core_binary_nonneg 53 1024 (Z.pos ma) 0 (Z.pos mb) 0
                     ltac:(lia) ltac:(lia)) as Hq;
    destruct (SFdiv_core_binary 53 1024 (Z.pos ma) 0 (Z.pos mb) 0)
      as [[mz ez] lz];
    apply binary_round_aux_not_nan, Hq.
Qed.

Lemma int_truediv_cases (a b : Z) :
  b <> 0 ->
  match SFdiv 53 1024 (float_of_int a) (float_of_int b) with
  | S754_infinity _ => int_truediv a b = inl OverflowError
  | quotient => int_truediv a b = inr quotient
  end.
Proof.
  intros Hb. unfold int_truediv.
  destruct (Z.eqb_spec b 0); [contradiction |].
  destruct (SFdiv 53 1024 (float_of_int a) (float_of_int b)); reflexivity.
Qed.

Lemma int_truediv_error (a b : Z) e :
  int_truediv a b = inl e ->
  (e = ZeroDivisionError /\ b = 0) \/ (e = OverflowError /\ b <> 0).
Proof.
  unfold int_truediv. destruct (Z.eqb_spec b 0) as [-> | Hb].
  - intros [= <-]. now left.
  - destruct (SFdiv 53 1024 _ _); intros [= <-]. now right.
Qed.

Lemma int_truediv_zero (b : Z) :
  b <> 0 -> int_truediv 0 b = inr (S754_zero (b <? 0)).
Proof.
  intros Hb. unfold int_truediv.
  destruct (Z.eqb_spec b 0); [contradiction |].
  destruct b; [contradiction | reflexivity | reflexivity].
Qed.

Lemma get_usage_body (data : usage_data) :
  get_usage (UsageBody data)
  = let used := default 0%Z (character_count data) in
    let limit := default 500000%Z (character_limit data) in
    match (if limit =? 0 then inr (S754_zero false)
           else int_truediv used limit) with
    | inl e => inl e
    | inr percentage =>
        match reset_date_str (reset_date data) with
        | inl e => inl e
        | inr reset => inr (used, limit, percentage, reset)
        end
    end.
Proof.
  unfold get_usage. cbv zeta.
  destruct (default 500000%Z (character_limit data) =? 0); reflexivity.
Qed.

Lemma reset_date_str_error (r : reset_date_result) e :
  reset_date_str r = inl e -> e = OverflowError \/ e = OSError.
Proof. destruct r; intros [= <-]; auto. Qed.

(** The claim of C8 read literally has [get_usage] return used divided by
    limit on every usage body.  With 10^400 characters used of a limit of
    1 the division of line 132 raises OverflowError and nothing is
    returned; with 2^53 + 1 characters used of a limit of 1 the fraction
    returned is the one returned for 2^53: the quotient is rounded. *)
Lemma get_usage_division_overflows :
  get_usage (UsageBody (UsageData (Some (10 ^ 400)) (Some 1) ResetUnknown))
  = inl OverflowError
  /\ exists f,
       get_usage
         (UsageBody (UsageData (Some (2 ^ 53 + 1)) (Some 1) ResetUnknown))
       = inr (2 ^ 53 + 1, 1, f, UNKNOWN)
       /\ get_usage
            (UsageBody (UsageData (Some (2 ^ 53)) (Some 1) ResetUnknown))
          = inr (2 ^ 53, 1, f, UNKNOWN).
Proof.
  split; [vm_compute; reflexivity |].
  exists (S754_finite false 4503599627370496 1).
  split; vm_compute; reflexivity.
Qed.

(** C8, amended: with used and limit the two counters of the usage body
    (0 and 500000 when absent), [get_usage] never raises
    ZeroDivisionError: when the limit is 0 the fraction is 0, and when it
    is not the fraction is the quotient of the two integers rounded to a
    float, unless that quotient is beyond the largest float, in which
    case the division raises OverflowError and [get_usage] returns
    nothing.  With the fraction so computed [get_usage] returns it, along
    with the two counters, unless the conversion of the end time raises
    (OverflowError or OSError).  The fraction returned is never an
    infinity or a NaN. *)
Theorem get_usage_fraction (data : usage_data) :
  let used := default 0%Z (character_count data) in
  let limit := default 500000%Z (character_limit data) in
  let returns f :=
    match reset_date_str (reset_date data) with
    | inl e => get_usage (UsageBody data) = inl e
    | inr reset => get_usage (UsageBody data) = inr (used, limit, f, reset)
    end in
  get_usage (UsageBody data) <> inl ZeroDivisionError
  /\ (limit = 0 -> returns (S754_zero false))
  /\ (limit <> 0 ->
      match SFdiv 53 1024 (float_of_int used) (float_of_int limit) with
      | S754_infinity _ => get_usage (UsageBody data) = inl OverflowError
      | quotient => returns quotient
      end)
  /\ (forall e, get_usage (UsageBody data) = inl e ->
        e = OverflowError \/ e = OSError)
  /\ (forall u l f r, get_usage (UsageBody data) = inr (u, l, f, r) ->
        u = used /\ l = limit /\ reset_date_str (reset_date data) = inr r
        /\ f <> S754_nan /\ forall s, f <> S754_infinity s).
Proof.
  intros used limit returns. subst returns. rewrite get_usage_body.
  cbv zeta. fold used limit.
  pose proof (reset_date_str_error (reset_date data)) as Hdate.
  destruct (Z.eqb_spec limit 0) as [E | Hne].
  - destruct (reset_date_str (reset_date data)) as [e | reset].
    + destruct (Hdate e eq_refl) as [-> | ->];
        (split; [discriminate |]); (split; [reflexivity |]);
        (split; [contradiction |]);
        (split; [intros e [= <-]; auto | discriminate]).
    + split; [discriminate |]. split; [reflexivity |].
      split; [contradiction |]. split; [discriminate |].
      intros u l f r [= <- <- <- <-]. repeat split; discriminate.
  - pose proof (int_truediv_cases used limit Hne) as Hc.
    pose proof (int_truediv_error used limit) as He.
    assert (forall f, int_truediv used limit = inr f ->
              f <> S754_nan /\ forall s, f <> S754_infinity s) as Hfin.
    { intros f. unfold int_truediv.
      destruct (Z.eqb_spec limit 0); [contradiction |].
      pose proof (SFdiv_int_not_nan used limit Hne) as Hnan.
      destruct (SFdiv 53 1024 _ _); intros [= <-]; done. }
    assert (forall e, int_truediv used limit = inl e -> e = OverflowError)
      as He'.
    { intros e Ed. destruct (He e Ed) as [[_ ?] | [-> _]]; done. }
    split; [| split; [contradiction | split; [| split]]].
    + destruct (int_truediv used limit) as [e |] eqn:Ed.
      * rewrite (He' e eq_refl). discriminate.
      * destruct (reset_date_str (reset_date data)) as [e |];
          [| discriminate].
        destruct (Hdate e eq_refl) as [-> | ->]; discriminate.
    + intros _.
      destruct (SFdiv 53 1024 _ _); rewrite Hc; try reflexivity;
        destruct (reset_date_str (reset_date data)); reflexivity.
    + intros e. destruct (int_truediv used limit) as [e' |] eqn:Ed.
      * intros [= <-]. left. now apply He'.
      * destruct (reset_date_str (reset_date data)) as [e' |];
          [| discriminate].
        intros [= <-]. now apply Hdate.
    + intros u l f r.
      destruct (int_truediv used limit) as [e' | f'] eqn:Ed; [discriminate |].
      destruct (reset_date_str (reset_date data)) as [e' | reset];
        [discriminate |].
      intros [= <- <- <- <-]. destruct (Hfin f' eq_refl). done.
Qed.

(** C10: a usage body without character_count is read with used = 0 and
    gives the fraction zero; one without character_limit is read with
    limit = 500000 and gives the quotient of the count by 500000 as a
    float, or the OverflowError of that division; the message of the
    quota gate in [main] is chosen from the fraction of the values so
    defaulted, and when [get_usage] raises (in the division or in the
    conversion of the end time) [main] ends with code 1 before the
    gate. *)
Theorem usage_defaults :
  (forall limit reset, exists sign,
      get_usage (UsageBody (UsageData None limit reset))
      = match reset_date_str reset with
        | inl e => inl e
        | inr text =>
            inr (0%Z, default 500000%Z limit, S754_zero sign, text)
        end)
  /\ (forall count reset,
      match SFdiv 53 1024 (float_of_int (default 0%Z count))
              (float_of_int 500000) with
      | S754_infinity _ =>
          get_usage (UsageBody (UsageData count None reset))
          = inl OverflowError
      | quotient =>
          get_usage (UsageBody (UsageData count None reset))
          = match reset_date_str reset with
            | inl e => inl e
            | inr text => inr (default 0%Z count, 500000%Z, quotient, text)
            end
      end)
  /\ (forall is_decimal json_loads s data file env srt_files,
      let r := main is_decimal json_loads (Some s) (UsageBody data) file env
                 srt_files in
      match get_usage (UsageBody data) with
      | inr (used, limit, percentage, reset) =>
          used = default 0%Z (character_count data)
          /\ limit = default 500000%Z (character_limit data)
          /\ quota_report r
             = Some (quota_check percentage (quota_threshold s))
      | inl e =>
          (e = OverflowError \/ e = OSError)
          /\ exit_code r = 1 /\ quota_report r = None
          /\ files_processed r = []
      end).
Proof.
  split; [| split].
  - intros limit reset. rewrite get_usage_body.
    cbn [character_limit character_count reset_date default]. cbv zeta.
    destruct (Z.eqb_spec (default 500000 limit) 0) as [E | Hne]; [by eexists |].
    rewrite (int_truediv_zero _ Hne). by eexists.
  - intros count reset. rewrite get_usage_body.
    cbn [character_limit character_count reset_date default]. cbv zeta.
    change (500000 =? 0) with false. cbv iota.
    pose proof (int_truediv_cases (default 0 count) 500000 ltac:(lia)) as Hc.
    destruct (SFdiv 53 1024 _ _); now rewrite Hc.
  - intros is_decimal json_loads s data file env srt_files r. subst r.
    unfold main.
    pose proof (reset_date_str_error (reset_date data)) as Hdate.
    destruct (get_usage (UsageBody data)) as [e | [[[used limit] percentage] reset]]
      eqn:Hu.
    + split; [| done].
      rewrite get_usage_body in Hu. cbv zeta in Hu.
      destruct (_ =? 0) eqn:E0.
      * destruct (reset_date_str (reset_date data)); [| discriminate].
        injection Hu as <-. now apply Hdate.
      * destruct (int_truediv _ _) as [e' |] eqn:Ed.
        -- injection Hu as <-.
           destruct (int_truediv_error _ _ _ Ed) as [[_ Hz] | [-> _]];
             [| now left].
           apply Z.eqb_neq in E0. contradiction.
        -- destruct (reset_date_str (reset_date data)); [| discriminate].
           injection Hu as <-. now apply Hdate.
    + assert (used = default 0 (character_count data)
              /\ limit = default 500000 (character_limit data)) as [-> ->].
      { rewrite get_usage_body in Hu. cbv zeta in Hu.
        destruct (if _ =? 0 then _ else _); [discriminate |].
        destruct (reset_date_str (reset_date data)); [discriminate |].
        by injection Hu as <- <- _ _. }
      split; [reflexivity |]. split; [reflexivity |].
      destruct (quota_check _ _); [reflexivity | |];
        destruct (_load_cache json_loads file); reflexivity.
Qed.

(** The tiers of the gate in the order of the two tests. *)
Lemma quota_check_cases (f T : spec_float) :
  (float_gt f T = true -> quota_check f T = QuotaExhausted)
  /\ (float_gt f T = false ->
      float_gt f (float_sub T (decimal 15 100)) = true ->
      quota_check f T = QuotaWarning)
  /\ (float_gt f T = false ->
      float_gt f (float_sub T (decimal 15 100)) = false ->
      quota_check f T = QuotaPassed).
Proof.
  unfold quota_check. repeat split.
  - now intros ->.
  - now intros -> ->.
  - now intros -> ->.
Qed.

(** The claim of C3 read literally puts the fraction [T - 0.15] itself in
    the warning tier.  With T = 0.9 and 375000 of 500000 characters used
    the fraction is 0.75, which is [T - 0.15] as the floats have it (and
    as the decimals have it), inside the closed interval, and the gate
    reports a passed check, not a warning. *)
Lemma quota_gate_closed_interval_fails :
  let T := decimal 9 10 in
  let usage := UsageBody (UsageData (Some 375000) (Some 500000) ResetUnknown) in
  exists f,
    get_usage usage = inr (375000, 500000, f, UNKNOWN)
    /\ f = float_sub T (decimal 15 100)
    /\ SFleb (float_sub T (decimal 15 100)) f = true /\ SFleb f T = true
    /\ quota_report
         (main ascii_decimal (fun _ => None)
            (Some (Settings (decimal 5 10) T 45000)) usage None
            (Environment (fun _ _ => RequestFailed) (fun _ _ => true)
               (fun _ _ => true)) [])
       = Some QuotaPassed
    /\ quota_check f T <> QuotaWarning.
Proof.
  cbv zeta. exists (decimal 75 100).
  repeat split; try (vm_compute; reflexivity).
  vm_compute. discriminate.
Qed.

(** The difference of line 323 is the one of the floats: with T = 0.6
    and 225000 of 500000 characters used the fraction is 0.45, the
    difference [T - 0.15] is 0.44999999999999996, and the warning is
    chosen. *)
Example quota_gate_rounded_difference :
  let T := decimal 6 10 in
  exists f,
    get_usage (UsageBody (UsageData (Some 225000) (Some 500000) ResetUnknown))
    = inr (225000, 500000, f, UNKNOWN)
    /\ f = decimal 45 100
    /\ float_gt f (float_sub T (decimal 15 100)) = true
    /\ quota_check f T = QuotaWarning.
Proof.
  cbv zeta. exists (decimal 45 100).
  repeat split; vm_compute; reflexivity.
Qed.

(** C3, amended: the gate makes the two strict comparisons of lines 317
    and 323 on floats, in this order.  With f the fraction [get_usage]
    returns and T the configured threshold: if f > T the run ends with
    exit code 1 and no file is processed; otherwise, if f > T - 0.15, the
    difference being the rounded one of the floats, the warning is
    chosen; otherwise the passed message; in both these cases the files
    are processed, with the cache as loaded. *)
Theorem quota_gate_three_tiers is_decimal json_loads s usage used limit f
    reset file env srt_files :
  get_usage usage = inr (used, limit, f, reset) ->
  let r := main is_decimal json_loads (Some s) usage file env srt_files in
  let T := quota_threshold s in
  let proceeds :=
    forall cache, _load_cache json_loads file = inr cache ->
      files_processed r
      = (process_files is_decimal env s srt_files cache []).2 in
  (float_gt f T = true ->
     exit_code r = 1 /\ files_processed r = []
     /\ quota_report r = Some QuotaExhausted)
  /\ (float_gt f T = false
      /\ float_gt f (float_sub T (decimal 15 100)) = true ->
     quota_report r = Some QuotaWarning /\ proceeds)
  /\ (float_gt f T = false
      /\ float_gt f (float_sub T (decimal 15 100)) = false ->
     quota_report r = Some QuotaPassed /\ proceeds).
Proof.
  intros Hu r T proceeds. subst r proceeds. unfold main. rewrite Hu.
  destruct (quota_check_cases f T) as (Hex & Hwarn & Hpass).
  split; [| split].
  - intros H. fold T. rewrite (Hex H). auto.
  - intros [H1 H2]. fold T. rewrite (Hwarn H1 H2).
    destruct (_load_cache json_loads file); split; try reflexivity;
      intros c [=]; subst; reflexivity.
  - intros [H1 H2]. fold T. rewrite (Hpass H1 H2).
    destruct (_load_cache json_loads file); split; try reflexivity;
      intros c [=]; subst; reflexivity.
Qed.

(** The example of the specification: fraction 0.92 against threshold
    0.9 ends the run with exit code 1 before any file is processed. *)
Lemma quota_gate_three_tiers_witness :
  let usage := UsageBody (UsageData (Some 460000) (Some 500000) ResetUnknown) in
  let f := decimal 92 100 in
  let env := Environment (fun _ _ => RequestFailed) (fun _ _ => true)
               (fun _ _ => true) in
  let r := main ascii_decimal (fun _ => None)
             (Some (Settings (decimal 5 10) (decimal 9 10) 45000)) usage None
             env [Some (py "1")] in
  get_usage usage = inr (460000, 500000, f, UNKNOWN)
  /\ float_gt f (decimal 9 10) = true
  /\ exit_code r = 1 /\ files_processed r = []
  /\ quota_report r = Some QuotaExhausted.
Proof.
  cbv zeta.
  assert (get_usage (UsageBody (UsageData (Some 460000) (Some 500000) ResetUnknown))
          = inr (460000, 500000, decimal 92 100, UNKNOWN)) as Hu
    by (vm_compute; reflexivity).
  assert (float_gt (decimal 92 100) (decimal 9 10) = true) as Hover
    by (vm_compute; reflexivity).
  split; [exact Hu |]. split; [exact Hover |].
  exact (proj1 (quota_gate_three_tiers ascii_decimal (fun _ => None)
                  (Settings (decimal 5 10) (decimal 9 10) 45000)
                  (UsageBody (UsageData (Some 460000) (Some 500000) ResetUnknown))
                  460000 500000 (decimal 92 100)
                  UNKNOWN None
                  (Environment (fun _ _ => RequestFailed) (fun _ _ => true)
                     (fun _ _ => true))
                  [Some (py "1")] Hu) Hover).
Defined.

(** ** The planning loop *)

Lemma clean_texts_snoc (done : list (list N)) (block : list N) :
  clean_texts (done ++ [block])
  = clean_texts done ++ (if well_formed block then [clean_text block] else []).
Proof.
  unfold clean_texts. rewrite filter_app, fmap_app. f_equal.
  rewrite filter_cons, filter_nil.
  destruct (well_formed block); case_decide; try done.
Qed.

Lemma uncached_snoc cache (done : list (list N)) (block : list N) :
  uncached cache (done ++ [block])
  = uncached cache done
    ++ (if well_formed block
        then match cache !! clean_text block with
             | None => [clean_text block]
             | Some _ => []
             end
        else []).
Proof.
  unfold uncached. rewrite clean_texts_snoc, filter_app. f_equal.
  destruct (well_formed block); [| done].
  rewrite filter_cons, filter_nil.
  destruct (cache !! clean_text block) eqn:E; case_decide; congruence.
Qed.

Lemma batch_string_snoc (texts : list (list N)) (t : list N) :
  batch_string (texts ++ [t]) = batch_string texts ++ t ++ SPLIT_TOKEN.
Proof.
  unfold batch_string. rewrite fmap_app, concat_app. simpl.
  now rewrite app_nil_r.
Qed.

Lemma batch_string_nil_inv (texts : list (list N)) :
  batch_string texts = [] -> texts = [].
Proof.
  destruct texts as [| t texts]; [done |].
  unfold batch_string. simpl. intros H.
  apply app_eq_nil in H as [H _]. apply app_eq_nil in H as [_ H].
  discriminate H.
Qed.

Lemma truthy_true (s : list N) : truthy s = true <-> s <> [].
Proof. destruct s; simpl; split; congruence. Qed.

Lemma truthy_false (s : list N) : truthy s = false <-> s = [].
Proof. destruct s; simpl; split; congruence. Qed.

Lemma within_budget_single MAX_CHARS (t : list N) :
  within_budget MAX_CHARS (t ++ SPLIT_TOKEN, [t]).
Proof.
  repeat split; simpl.
  - unfold batch_string. simpl. now rewrite app_nil_r.
  - discriminate.
  - destruct (Z_le_gt_dec (Z.of_nat (length (t ++ SPLIT_TOKEN))) MAX_CHARS);
      [left; assumption | right; exists t; split; [reflexivity | lia]].
Qed.

Ltac split_plan_inv := refine (conj _ (conj _ (conj _ (conj _ _)))).

Lemma plan_inv_init cache MAX_CHARS :
  plan_inv cache MAX_CHARS [] (PlanState [] [] [] ∅).
Proof.
  split_plan_inv; simpl; auto.
Qed.

Lemma plan_inv_step cache MAX_CHARS done st block :
  plan_inv cache MAX_CHARS done st ->
  plan_inv cache MAX_CHARS (done ++ [block])
    (plan_step cache MAX_CHARS st block).
Proof.
  intros (Hcover & Htext & Hclosed & Hcur & Hall).
  unfold plan_inv. rewrite uncached_snoc, clean_texts_snoc.
  unfold plan_step, well_formed.
  change (english_text_of (drop 2 (split [NEWLINE] block)))
    with (clean_text block).
  destruct (length (split [NEWLINE] block) <? 2)%nat; cbn [negb].
  { rewrite !app_nil_r. split_plan_inv; auto. }
  set (t := clean_text block) in *.
  destruct (cache !! t) as [v |] eqn:Hc; simpl.
  - rewrite app_nil_r. split_plan_inv; auto.
    intros t'. destruct (decide (t = t')) as [<- | Hne].
    + rewrite lookup_insert_eq. rewrite decide_True; [done |].
      apply elem_of_app. right. apply list_elem_of_singleton. done.
    + rewrite lookup_insert_ne by done. rewrite Hall.
      repeat case_decide; try done; exfalso.
      * apply H0, elem_of_app. now left.
      * apply elem_of_app in H0 as [? | Hin]; [done |].
        apply list_elem_of_singleton in Hin. congruence.
  - assert (forall t', all_translations st !! t'
              = if decide (t' ∈ clean_texts done ++ [t])
                then cache !! t' else None) as Hall'.
    { intros t'. rewrite Hall.
      destruct (decide (t' = t)) as [-> | Hne].
      - rewrite (decide_True (P := t ∈ _ ++ _)).
        + rewrite Hc. now case_decide.
        + apply elem_of_app. right. now apply list_elem_of_singleton.
      - repeat case_decide; try done; exfalso.
        + apply H0, elem_of_app. now left.
        + apply elem_of_app in H0 as [? | Hin]; [done |].
          now apply list_elem_of_singleton in Hin. }
    destruct ((_ >? _) && _) eqn:Hclose; simpl.
    + apply andb_true_iff in Hclose as [_ Hne]. apply truthy_true in Hne.
      split_plan_inv; auto.
      * rewrite fmap_app, concat_app. simpl. rewrite app_nil_r.
        now rewrite Hcover.
      * unfold batch_string. simpl. now rewrite app_nil_r.
      * apply Forall_app. split; [assumption |].
        constructor; [| constructor].
        destruct Hcur as [Hnil | Hok]; [| exact Hok].
        rewrite Hnil in Htext. simpl in Htext. contradiction.
      * right. apply within_budget_single.
    + apply andb_false_iff in Hclose.
      split_plan_inv; auto.
      * now rewrite <- Hcover, app_assoc.
      * rewrite Htext. symmetry. apply batch_string_snoc.
      * right. destruct Hclose as [Hfit | Hempty].
        -- destruct Hcur as [Hnil | _].
           { rewrite Hnil in *. rewrite Htext. simpl.
             apply within_budget_single. }
           split; [simpl; rewrite Htext; symmetry; apply batch_string_snoc |].
           split; [simpl; now destruct (current_batch_indices st) |].
           left. simpl. rewrite length_app.
           rewrite Z.gtb_ltb in Hfit. apply Z.ltb_ge in Hfit. lia.
        -- apply truthy_false in Hempty. rewrite Hempty in *.
           symmetry in Htext. apply batch_string_nil_inv in Htext.
           rewrite Htext. simpl. apply within_budget_single.
Qed.

Lemma plan_inv_loop cache MAX_CHARS (indexed_blocks : list (list N)) :
  plan_inv cache MAX_CHARS indexed_blocks
    (fold_left (plan_step cache MAX_CHARS) indexed_blocks
       (PlanState [] [] [] ∅)).
Proof.
  induction indexed_blocks as [| block done IH] using rev_ind.
  - apply plan_inv_init.
  - rewrite fold_left_app. simpl. now apply plan_inv_step.
Qed.

Lemma plan_batches cache MAX_CHARS (indexed_blocks : list (list N)) :
  concat (snd <$> (plan cache MAX_CHARS indexed_blocks).1)
  = uncached cache indexed_blocks
  /\ Forall (within_budget MAX_CHARS) (plan cache MAX_CHARS indexed_blocks).1.
Proof.
  destruct (plan_inv_loop cache MAX_CHARS indexed_blocks)
    as (Hcover & Htext & Hclosed & Hcur & _).
  unfold plan. cbn [fst].
  set (st := fold_left _ _ _) in *.
  destruct (truthy (current_batch_text st)) eqn:Hne.
  - apply truthy_true in Hne. split.
    + rewrite fmap_app, concat_app. simpl. now rewrite app_nil_r.
    + apply Forall_app. split; [assumption |].
      constructor; [| constructor].
      destruct Hcur as [Hnil | Hok]; [| exact Hok].
      rewrite Hnil in Htext. contradiction.
  - apply truthy_false in Hne. rewrite Hne in Htext. symmetry in Htext.
    apply batch_string_nil_inv in Htext. rewrite Htext, app_nil_r in Hcover.
    auto.
Qed.

Lemma plan_hits cache MAX_CHARS (indexed_blocks : list (list N)) (t : list N) :
  (plan cache MAX_CHARS indexed_blocks).2 !! t
  = if decide (t ∈ clean_texts indexed_blocks) then cache !! t else None.
Proof.
  destruct (plan_inv_loop cache MAX_CHARS indexed_blocks)
    as (_ & _ & _ & _ & Hall).
  apply Hall.
Qed.

Lemma elem_of_uncached cache (indexed_blocks : list (list N)) (t : list N) :
  t ∈ uncached cache indexed_blocks
  <-> t ∈ clean_texts indexed_blocks /\ cache !! t = None.
Proof.
  unfold uncached. rewrite list_elem_of_filter. tauto.
Qed.

Lemma elem_of_concat_lookup {A} (ls : list (list A)) k lk (x : A) :
  ls !! k = Some lk -> x ∈ lk -> x ∈ concat ls.
Proof.
  revert k. induction ls as [| l ls IH]; intros [| k] Hk Hx;
    simpl in *; simplify_eq; apply elem_of_app; eauto.
Qed.

Lemma elem_of_concat_inv {A} (ls : list (list A)) (x : A) :
  x ∈ concat ls -> exists k lk, ls !! k = Some lk /\ x ∈ lk.
Proof.
  induction ls as [| l ls IH]; simpl; intros Hx.
  - by apply elem_of_nil in Hx.
  - apply elem_of_app in Hx as [Hx | Hx].
    + exists 0%nat, l. done.
    + destruct (IH Hx) as (k & lk & Hk & Hin). exists (S k), lk. done.
Qed.

Lemma NoDup_concat_lookup {A} (ls : list (list A)) :
  NoDup (concat ls) ->
  (forall i l, ls !! i = Some l -> NoDup l)
  /\ (forall i j li lj x,
        ls !! i = Some li -> ls !! j = Some lj ->
        x ∈ li -> x ∈ lj -> i = j).
Proof.
  induction ls as [| l ls IH]; simpl.
  - intros _. split; intros; simplify_eq.
  - intros Hnd. apply NoDup_app in Hnd as (Hl & Hdisj & Hrest).
    destruct (IH Hrest) as [IH1 IH2]. split.
    + intros [| i] l' Hi; simpl in Hi; [by simplify_eq | eauto].
    + pose proof (elem_of_concat_lookup ls) as Hin.
      intros [| i] [| j] li lj x Hi Hj Hxi Hxj; simpl in Hi, Hj;
        simplify_eq; try done.
      * exfalso. eapply Hdisj; eauto.
      * exfalso. eapply Hdisj; eauto.
      * f_equal. eauto.
Qed.

(** The claim of C1 read literally fails on a file in which a caption
    text is repeated: two units with the text "Hello" and an empty cache
    give one batch listing "Hello" twice, and with a budget of 10
    characters two batches that both list "Hello". *)
Lemma plan_repeated_text_twice :
  let unit1 := py "1" ++ [NEWLINE] ++ py "00:00:01,000 --> 00:00:02,000"
               ++ [NEWLINE] ++ py "Hello" ++ [NEWLINE; NEWLINE] in
  let unit2 := py "2" ++ [NEWLINE] ++ py "00:00:03,000 --> 00:00:04,000"
               ++ [NEWLINE] ++ py "Hello" in
  (plan ∅ 45000 [unit1; unit2]).1
  = [(py "Hello<DEEPL_SPLIT_TOKEN>Hello<DEEPL_SPLIT_TOKEN>",
      [py "Hello"; py "Hello"])]
  /\ (plan ∅ 10 [unit1; unit2]).1
     = [(py "Hello<DEEPL_SPLIT_TOKEN>", [py "Hello"]);
        (py "Hello<DEEPL_SPLIT_TOKEN>", [py "Hello"])]
  /\ ~ NoDup (concat (snd <$> (plan ∅ 45000 [unit1; unit2]).1))
  /\ ~ NoDup (concat (snd <$> (plan ∅ 10 [unit1; unit2]).1)).
Proof.
  cbv zeta.
  assert (forall x : list N, ~ NoDup [x; x]) as Hdup.
  { intros x Hnd. apply NoDup_cons in Hnd as [Hnotin _].
    apply Hnotin. left. }
  split; [vm_compute; reflexivity |].
  split; [vm_compute; reflexivity |].
  split; vm_compute; apply Hdup.
Qed.

(** C1, amended: the planning loop does not remove repetitions.  The
    source-text lists of the batches, one after the other, are exactly
    the clean texts of the well-formed units that the cache does not
    hold, in file order and as often as they occur; a text of a batch is
    never a cache hit.  Hence, when these uncached clean texts are
    pairwise distinct, no text is listed in two batches and none twice in
    one batch. *)
Theorem plan_batches_cover cache MAX_CHARS (indexed_blocks : list (list N)) :
  let bs := (plan cache MAX_CHARS indexed_blocks).1 in
  concat (snd <$> bs) = uncached cache indexed_blocks
  /\ (forall i b t, bs !! i = Some b -> t ∈ b.2 ->
        t ∈ clean_texts indexed_blocks /\ cache !! t = None)
  /\ (NoDup (uncached cache indexed_blocks) ->
        (forall i b, bs !! i = Some b -> NoDup b.2)
        /\ (forall i j bi bj t,
              bs !! i = Some bi -> bs !! j = Some bj ->
              t ∈ bi.2 -> t ∈ bj.2 -> i = j)).
Proof.
  intros bs. destruct (plan_batches cache MAX_CHARS indexed_blocks)
    as [Hcover _]. fold bs in Hcover.
  split; [exact Hcover |]. split.
  - intros i b t Hi Ht. apply elem_of_uncached. rewrite <- Hcover.
    apply (elem_of_concat_lookup _ i b.2); [| done].
    rewrite list_lookup_fmap, Hi. done.
  - intros Hnd. rewrite <- Hcover in Hnd.
    apply NoDup_concat_lookup in Hnd as [Hin Hacross]. split.
    + intros i b Hi. apply (Hin i). rewrite list_lookup_fmap, Hi. done.
    + intros i j bi bj t Hi Hj Hti Htj.
      apply (Hacross i j bi.2 bj.2 t); [| | done | done];
        rewrite list_lookup_fmap; [rewrite Hi | rewrite Hj]; done.
Qed.

Lemma plan_batches_cover_witness :
  let unit1 := py "1" ++ [NEWLINE] ++ py "00:00:01,000 --> 00:00:02,000"
               ++ [NEWLINE] ++ py "Hello" ++ [NEWLINE; NEWLINE] in
  let unit2 := py "2" ++ [NEWLINE] ++ py "00:00:03,000 --> 00:00:04,000"
               ++ [NEWLINE] ++ py "World" in
  NoDup (uncached ∅ [unit1; unit2])
  /\ forall i b, (plan ∅ 10 [unit1; unit2]).1 !! i = Some b -> NoDup b.2.
Proof.
  cbv zeta.
  assert (NoDup
            (uncached ∅
               [py "1" ++ [NEWLINE] ++ py "00:00:01,000 --> 00:00:02,000"
                ++ [NEWLINE] ++ py "Hello" ++ [NEWLINE; NEWLINE];
                py "2" ++ [NEWLINE] ++ py "00:00:03,000 --> 00:00:04,000"
                ++ [NEWLINE] ++ py "World"])) as Hnd.
  { apply (bool_decide_unpack _). vm_compute. reflexivity. }
  split; [exact Hnd |].
  exact (proj1 (proj2 (proj2 (plan_batches_cover ∅ 10 _)) Hnd)).
Defined.

(** The claim of C4 read literally lets a batch string exceed the budget
    only when the first text of the batch alone exceeds it.  With the
    text Hello and a budget of 20 the file has one batch, the text with
    its delimiter: 24 characters, over the budget, for a text of 5
    characters, within it. *)
Lemma plan_single_text_over_budget :
  let unit1 := py "1" ++ [NEWLINE] ++ py "00:00:01,000 --> 00:00:02,000"
               ++ [NEWLINE] ++ py "Hello" in
  (plan ∅ 20 [unit1]).1
  = [(py "Hello<DEEPL_SPLIT_TOKEN>", [py "Hello"])]
  /\ Z.of_nat (length (py "Hello<DEEPL_SPLIT_TOKEN>")) = 24
  /\ 20 < Z.of_nat (length (py "Hello<DEEPL_SPLIT_TOKEN>"))
  /\ Z.of_nat (length (py "Hello")) <= 20.
Proof.
  cbv zeta. split; [vm_compute; reflexivity |].
  split; [reflexivity |]. split; [vm_compute; reflexivity |].
  vm_compute. discriminate.
Qed.

(** C4, amended: every batch the planner builds is the concatenation of
    its texts, each followed by the delimiter, and its length is at most
    max_batch_chars unless the batch is a single text that with its
    delimiter (19 characters) is longer than the budget, the text alone
    being over the budget or not.  Every uncached clean text of the
    file, however long, is in some batch, whole. *)
Theorem plan_batches_budget cache MAX_CHARS (indexed_blocks : list (list N)) :
  let bs := (plan cache MAX_CHARS indexed_blocks).1 in
  (forall i batch_text texts,
      bs !! i = Some (batch_text, texts) ->
      batch_text = batch_string texts
      /\ texts <> []
      /\ (Z.of_nat (length batch_text) <= MAX_CHARS
          \/ exists t, texts = [t]
                       /\ MAX_CHARS < Z.of_nat (length (t ++ SPLIT_TOKEN))))
  /\ (forall t,
        t ∈ clean_texts indexed_blocks -> cache !! t = None ->
        exists i batch_text texts before after,
          bs !! i = Some (batch_text, texts)
          /\ t ∈ texts
          /\ batch_text = before ++ t ++ SPLIT_TOKEN ++ after).
Proof.
  intros bs. destruct (plan_batches cache MAX_CHARS indexed_blocks)
    as [Hcover Hok]. fold bs in Hcover, Hok. split.
  - intros i batch_text texts Hi.
    rewrite Forall_lookup in Hok. exact (Hok i _ Hi).
  - intros t Ht Hc.
    assert (t ∈ concat (snd <$> bs)) as Hin.
    { rewrite Hcover. now apply elem_of_uncached. }
    apply elem_of_concat_inv in Hin as (i & texts & Hi & Hin).
    rewrite list_lookup_fmap in Hi.
    destruct (bs !! i) as [[batch_text texts'] |] eqn:Hb; simplify_eq.
    simpl in Hin.
    rewrite Forall_lookup in Hok. destruct (Hok i _ Hb) as (Hstr & _).
    simpl in Hstr.
    apply list_elem_of_split in Hin as (l1 & l2 & ->).
    simpl in Hi. injection Hi as ->.
    exists i, batch_text, (l1 ++ t :: l2), (batch_string l1), (batch_string l2).
    split; [done |]. split; [apply elem_of_app; right; left |].
    rewrite Hstr. unfold batch_string.
    rewrite fmap_app, concat_app. simpl. now rewrite <- !app_assoc.
Qed.

(** A caption longer than the budget of 5 characters gets a batch of its
    own; the caption after it starts the next batch. *)
Lemma plan_batches_budget_witness :
  let unit1 := py "1" ++ [NEWLINE] ++ py "00:00:01,000 --> 00:00:02,000"
               ++ [NEWLINE] ++ py "Hello [music] world" ++ [NEWLINE; NEWLINE]
  in
  let unit2 := py "2" ++ [NEWLINE] ++ py "00:00:03,000 --> 00:00:04,000"
               ++ [NEWLINE] ++ py "Bye" in
  (plan ∅ 5 [unit1; unit2]).1 !! 0%nat
  = Some (py "Hello  world<DEEPL_SPLIT_TOKEN>", [py "Hello  world"])
  /\ py "Hello  world<DEEPL_SPLIT_TOKEN>" = batch_string [py "Hello  world"]
  /\ [py "Hello  world"] <> []
  /\ (Z.of_nat (length (py "Hello  world<DEEPL_SPLIT_TOKEN>")) <= 5
      \/ exists t, [py "Hello  world"] = [t]
                   /\ 5 < Z.of_nat (length (t ++ SPLIT_TOKEN))).
Proof.
  cbv zeta.
  assert ((plan ∅ 5
             [py "1" ++ [NEWLINE] ++ py "00:00:01,000 --> 00:00:02,000"
              ++ [NEWLINE] ++ py "Hello [music] world"
              ++ [NEWLINE; NEWLINE];
              py "2" ++ [NEWLINE] ++ py "00:00:03,000 --> 00:00:04,000"
              ++ [NEWLINE] ++ py "Bye"]).1 !! 0%nat
          = Some (py "Hello  world<DEEPL_SPLIT_TOKEN>", [py "Hello  world"]))
    as Hlookup.
  { vm_compute. reflexivity. }
  split; [exact Hlookup |].
  exact (proj1 (plan_batches_budget ∅ 5 _) 0%nat _ _ Hlookup).
Defined.

(** ** Texts that can be encoded *)

Lemma lstrip_Forall (P : N -> Prop) (s : list N) :
  Forall P s -> Forall P (lstrip s).
Proof.
  induction s as [| c r IH]; intros H; cbn [lstrip]; [done |].
  destruct (isspace c); [| exact H].
  apply IH. now apply Forall_cons in H as [_ H].
Qed.

Lemma strip_Forall (P : N -> Prop) (s : list N) :
  Forall P s -> Forall P (strip s).
Proof.
  intros H. unfold strip, rstrip.
  apply Forall_reverse, lstrip_Forall, Forall_reverse, lstrip_Forall, H.
Qed.

Lemma split_from_Forall (P : N -> Prop) sep skip cur (s : list N) :
  Forall P cur -> Forall P s -> Forall (Forall P) (split_from sep skip cur s).
Proof.
  revert skip cur. induction s as [| c r IH]; intros skip cur Hcur Hs;
    cbn [split_from].
  - constructor; [now apply Forall_reverse | constructor].
  - apply Forall_cons in Hs as [Hc Hr].
    destruct skip as [| k]; [| now apply IH].
    destruct (starts_with sep (c :: r)).
    + constructor; [now apply Forall_reverse | now apply IH].
    + apply IH; [now constructor | exact Hr].
Qed.



Lemma utf8_encode_char_None (c : N) :
  utf8_encode_char c = None
  <-> ((55296 <= c)%N /\ (c <= 57343)%N) \/ (1114112 <= c)%N.
Proof.
  unfold utf8_encode_char.
  destruct (N.ltb_spec c 128); [split; [done | lia] |].
  destruct (N.ltb_spec c 2048); [split; [done | lia] |].
  destruct (N.ltb_spec c 65536).
  - destruct (N.leb_spec 55296 c), (N.leb_spec c 57343); cbn [andb];
      split; try done; try lia; try (intros _; left; lia).
  - destruct (N.ltb_spec c 1114112); split; try done; try lia;
      try (intros _; now right).
Qed.

Lemma utf8_encode_None (s : list N) :
  utf8_encode s = None <-> Exists (λ c, utf8_encode_char c = None) s.
Proof.
  induction s as [| c r IH]; cbn [utf8_encode].
  - split; [done | intros H; inversion H].
  - rewrite Exists_cons.
    destruct (utf8_encode_char c) as [b |]; cbn [mbind option_bind].
    + destruct (utf8_encode r) as [bs |]; cbn [mbind option_bind].
      * split; [done |]. intros [H | H]; [done |]. now apply IH in H.
      * split; [intros _; right; now apply IH | done].
    + split; [now left | done].
Qed.

Lemma encodable_Forall (s : list N) :
  encodable s = true <-> Forall scalar s.
Proof.
  unfold encodable, scalar. rewrite Forall_Exists_neg.
  pose proof (utf8_encode_None s) as H.
  destruct (utf8_encode s).
  - split; [| done]. intros _ Hex. apply H in Hex. discriminate.
  - split; [done |]. intros Hn. exfalso. apply Hn, H. reflexivity.
Qed.

Lemma scalar_ascii (c : N) : (c < 128)%N -> scalar c.
Proof.
  intros H. unfold scalar. rewrite utf8_encode_char_None. lia.
Qed.

Lemma dumpable_spec (cache : gmap (list N) (list N)) :
  dumpable cache = true
  <-> forall t v, cache !! t = Some v -> Forall scalar t /\ Forall scalar v.
Proof.
  unfold dumpable. rewrite bool_decide_eq_true. unfold map_Forall.
  split; intros H t v Htv; specialize (H t v Htv);
    now rewrite <- !encodable_Forall in *.
Qed.

Lemma dumpable_insert (cache : gmap (list N) (list N)) (t v : list N) :
  dumpable cache = true -> Forall scalar t -> Forall scalar v ->
  dumpable (<[t := v]> cache) = true.
Proof.
  rewrite !dumpable_spec. intros H Ht Hv t' v'.
  destruct (decide (t = t')) as [<- | Hne].
  - rewrite lookup_insert_eq. now intros [= <-].
  - rewrite lookup_insert_ne by done. apply H.
Qed.

(** ** Merging a batch response *)

Lemma recorded_from_cons segs i (t : list N) (rest : list (list N)) :
  recorded_from segs i (t :: rest)
  = match segs !! i with
    | Some seg =>
        if truthy (strip seg)
        then (t, strip seg) :: recorded_from segs (S i) rest
        else recorded_from segs (S i) rest
    | None => []
    end.
Proof.
  unfold recorded_from. destruct (segs !! i) as [seg |] eqn:Hi.
  - rewrite (drop_S _ _ _ Hi).
    cbn [zip zip_with omap list_omap fst snd].
    destruct (truthy (strip seg)); reflexivity.
  - pose proof (lookup_ge_None_1 _ _ Hi) as Hge.
    rewrite (drop_ge segs i) by lia. reflexivity.
Qed.

Lemma recorded_from_nil segs i : recorded_from segs i [] = [].
Proof. reflexivity. Qed.

Lemma recorded_from_ge segs i (texts : list (list N)) :
  (length segs <= i)%nat -> recorded_from segs i texts = [].
Proof.
  intros H. unfold recorded_from. rewrite (drop_ge segs i) by lia.
  destruct texts; reflexivity.
Qed.

Lemma store_segments_ge writable segs i (texts : list (list N)) maps :
  (length segs <= i)%nat ->
  store_segments writable segs i texts maps = (Return tt, maps).
Proof.
  revert i maps. induction texts as [| t rest IH]; intros i maps H;
    cbn [store_segments]; [done |].
  apply Nat.ltb_ge in H as H'. rewrite H'. cbn [andb].
  apply IH. lia.
Qed.

(** The inner loop goes through the first [n] positions: it writes what
    they record, and it stops before the end exactly when the
    [cache.set] of position [n - 1] raises, the ones before having
    returned. *)
Lemma store_segments_spec writable segs (texts : list (list N)) :
  forall i maps,
    let r := store_segments writable segs i texts maps in
    exists n,
      (n <= length texts)%nat
      /\ r.2 = fold_left record (recorded_from segs i (take n texts)) maps
      /\ (r.1 = Return tt /\ n = length texts
          \/ r.1 = Raise
             /\ exists m t v,
                  n = S m /\ has_segment (drop i segs) texts m t v
                  /\ dumpable r.2.2 && writable (i + m)%nat = false)
      /\ forall m t v,
           (S m < n)%nat -> has_segment (drop i segs) texts m t v ->
           dumpable
             (fold_left record (recorded_from segs i (take (S m) texts))
                maps).2
           && writable (i + m)%nat = true.
Proof.
  induction texts as [| t rest IH]; intros i maps r; subst r.
  - exists 0%nat. cbn. split; [lia |]. split; [done |].
    split; [now left | intros; lia].
  - cbn [store_segments].
    destruct (segs !! i) as [seg |] eqn:Hi.
    + pose proof (lookup_lt_Some _ _ _ Hi) as Hlt.
      apply Nat.ltb_lt in Hlt as Hlt'. rewrite Hlt'. cbn [andb].
      rewrite (nth_lookup_Some _ _ _ _ Hi).
      destruct (truthy (strip seg)) eqn:Hseg.
      * unfold cache_set. cbn [fst snd].
        destruct (dumpable (<[t:=strip seg]> maps.2) && writable i) eqn:Hset.
        -- destruct (IH (S i) (<[t:=strip seg]> maps.1,
                            <[t:=strip seg]> maps.2))
             as (n & Hn & Hr & Hend & Hbefore).
           exists (S n). cbn [length take]. split; [lia |].
           rewrite recorded_from_cons, Hi, Hseg. cbn [fold_left].
           split; [exact Hr |]. split.
           ++ destruct Hend as [[H1 H2] | (H1 & m & t' & v & -> & Hs & Hd)].
              ** left. split; [exact H1 | lia].
              ** right. split; [exact H1 |]. exists (S m), t', v.
                 split; [reflexivity |]. split.
                 --- destruct Hs as (Ht' & seg' & Hs' & Hrest).
                     split; [exact Ht' |]. exists seg'.
                     rewrite lookup_drop in Hs' |- *.
                     now replace (i + S m)%nat with (S i + m)%nat by lia.
                 --- now replace (i + S m)%nat with (S i + m)%nat by lia.
           ++ intros m t' v Hm Hs. destruct m as [| m].
              ** cbn [take]. rewrite recorded_from_cons, Hi, Hseg.
                 rewrite recorded_from_nil. cbn [fold_left].
                 now rewrite Nat.add_0_r.
              ** cbn [take]. rewrite recorded_from_cons, Hi, Hseg.
                 cbn [fold_left].
                 replace (i + S m)%nat with (S i + m)%nat by lia.
                 apply (Hbefore m t' v); [lia |].
                 destruct Hs as (Ht' & seg' & Hs' & Hrest).
                 split; [exact Ht' |]. exists seg'.
                 rewrite lookup_drop in Hs' |- *.
                 now replace (S i + m)%nat with (i + S m)%nat by lia.
        -- exists 1%nat. cbn [length take fst snd]. split; [lia |].
           rewrite recorded_from_cons, Hi, Hseg, recorded_from_nil.
           cbn [fold_left]. split; [reflexivity |]. split.
           ++ right. split; [reflexivity |]. exists 0%nat, t, (strip seg).
              split; [reflexivity |]. split.
              ** split; [reflexivity |]. exists seg.
                 rewrite lookup_drop, Nat.add_0_r.
                 split; [exact Hi |]. split; [| reflexivity].
                 now apply truthy_true.
              ** now rewrite Nat.add_0_r.
           ++ intros; lia.
      * destruct (IH (S i) maps) as (n & Hn & Hr & Hend & Hbefore).
        exists (S n). cbn [length take]. split; [lia |].
        rewrite recorded_from_cons, Hi, Hseg.
        split; [exact Hr |]. split.
        -- destruct Hend as [[H1 H2] | (H1 & m & t' & v & -> & Hs & Hd)].
           ++ left. split; [exact H1 | lia].
           ++ right. split; [exact H1 |]. exists (S m), t', v.
              split; [reflexivity |]. split.
              ** destruct Hs as (Ht' & seg' & Hs' & Hrest).
                 split; [exact Ht' |]. exists seg'.
                 rewrite lookup_drop in Hs' |- *.
                 now replace (i + S m)%nat with (S i + m)%nat by lia.
              ** now replace (i + S m)%nat with (S i + m)%nat by lia.
        -- intros m t' v Hm Hs. destruct m as [| m].
           ++ destruct Hs as (Ht' & seg' & Hs' & Hne & _).
              rewrite lookup_drop, Nat.add_0_r, Hi in Hs'.
              injection Hs' as <-. apply truthy_false in Hseg. contradiction.
           ++ cbn [take]. rewrite recorded_from_cons, Hi, Hseg.
              replace (i + S m)%nat with (S i + m)%nat by lia.
              apply (Hbefore m t' v); [lia |].
              destruct Hs as (Ht' & seg' & Hs' & Hrest).
              split; [exact Ht' |]. exists seg'.
              rewrite lookup_drop in Hs' |- *.
              now replace (S i + m)%nat with (i + S m)%nat by lia.
    + pose proof (lookup_ge_None_1 _ _ Hi) as Hge.
      apply Nat.ltb_ge in Hge as Hge'. rewrite Hge'. cbn [andb].
      rewrite store_segments_ge by lia.
      exists (length (t :: rest)). split; [lia |].
      rewrite recorded_from_ge by lia. cbn [fold_left snd fst].
      split; [reflexivity |]. split; [now left |].
      intros m t' v _ (_ & seg' & Hs' & _).
      rewrite lookup_drop in Hs'.
      apply lookup_lt_Some in Hs'. lia.
Qed.

Lemma fold_record_unchanged (l : list (list N * list N)) maps (t : list N) :
  (forall v, (t, v) ∉ l) ->
  (fold_left record l maps).1 !! t = maps.1 !! t
  /\ (fold_left record l maps).2 !! t = maps.2 !! t.
Proof.
  revert maps. induction l as [| [t0 v0] l IH]; intros maps Hnot; [done |].
  cbn [fold_left].
  destruct (IH (record maps (t0, v0))) as [H1 H2].
  { intros v Hin. apply (Hnot v). now right. }
  rewrite H1, H2. unfold record. cbn [fst snd].
  assert (t0 <> t) as Hne.
  { intros ->. apply (Hnot v0). left. }
  now rewrite !lookup_insert_ne.
Qed.

Lemma fold_record_written (l : list (list N * list N)) maps (t v : list N) :
  (t, v) ∈ l ->
  exists v', (t, v') ∈ l
             /\ (fold_left record l maps).1 !! t = Some v'
             /\ (fold_left record l maps).2 !! t = Some v'.
Proof.
  revert v. induction l as [| [t0 v0] l IH] using rev_ind; intros v Hin.
  - by apply elem_of_nil in Hin.
  - rewrite fold_left_app. cbn [fold_left]. unfold record at 1 3.
    cbn [fst snd].
    destruct (decide (t0 = t)) as [-> | Hne].
    + exists v0. rewrite !lookup_insert_eq.
      split; [apply elem_of_app; right; left | done].
    + apply elem_of_app in Hin as [Hin | Hin].
      * destruct (IH _ Hin) as (v' & Hv' & H1 & H2). exists v'.
        rewrite !lookup_insert_ne by done.
        split; [apply elem_of_app; now left | done].
      * apply list_elem_of_singleton in Hin. congruence.
Qed.

Lemma elem_of_recorded (resp : list N) (original_texts : list (list N)) (t v : list N) :
  (t, v) ∈ recorded resp original_texts
  <-> exists i seg,
        original_texts !! i = Some t
        /\ split SPLIT_TOKEN resp !! i = Some seg
        /\ strip seg <> [] /\ v = strip seg.
Proof.
  unfold recorded. rewrite list_elem_of_omap. split.
  - intros ([t' seg] & Hin & Hsome). cbn [fst snd] in Hsome.
    destruct (truthy (strip seg)) eqn:Hne; [| discriminate].
    injection Hsome as Ht Hv. subst t' v.
    apply list_elem_of_lookup in Hin as [i Hi].
    apply lookup_zip_with_Some in Hi as (x & y & Hxy & Hx & Hy).
    injection Hxy as Ex Ey. subst x y.
    exists i, seg. now rewrite truthy_true in Hne.
  - intros (i & seg & Ht & Hseg & Hne & ->).
    exists (t, seg). split.
    + apply list_elem_of_lookup. exists i.
      apply lookup_zip_with_Some. eauto.
    + cbn [fst snd]. apply truthy_true in Hne. now rewrite Hne.
Qed.

Lemma elem_of_recorded_take (resp : list N) (texts : list (list N)) n
    (t v : list N) :
  (t, v) ∈ recorded resp (take n texts)
  <-> exists i, (i < n)%nat /\ has_segment (split SPLIT_TOKEN resp) texts i t v.
Proof.
  rewrite elem_of_recorded. unfold has_segment. split.
  - intros (i & seg & Ht & Hseg & Hne & ->).
    apply lookup_take_Some in Ht as [Ht Hi]. eauto 10.
  - intros (i & Hi & Ht & seg & Hseg & Hne & ->).
    exists i, seg. rewrite lookup_take_Some. eauto.
Qed.

Lemma recorded_take_sub (resp : list N) (texts : list (list N)) n
    (p : list N * list N) :
  p ∈ recorded resp (take n texts) -> p ∈ recorded resp texts.
Proof.
  destruct p as [t v]. rewrite elem_of_recorded_take, elem_of_recorded.
  intros (i & _ & Ht & seg & Hseg & Hne & ->). eauto 10.
Qed.

(** What one response does to the two maps, whether or not a
    [cache.set] raises: it writes the pairs that a prefix of the texts
    records, all of them when the loop comes to its end. *)
Lemma merge_response_fold writable (resp : list N)
    (original_texts : list (list N)) maps :
  exists n,
    (merge_response writable resp original_texts maps).2
    = fold_left record (recorded resp (take n original_texts)) maps
    /\ ((merge_response writable resp original_texts maps).1 = Return tt
        /\ n = length original_texts
        \/ (merge_response writable resp original_texts maps).1 = Raise).
Proof.
  unfold merge_response. destruct resp as [| c resp'].
  - exists (length original_texts). cbn [truthy snd fst].
    split; [| now left]. rewrite firstn_all.
    destruct original_texts as [| ? [| ? ?]]; reflexivity.
  - cbn [truthy].
    destruct (store_segments_spec writable (split SPLIT_TOKEN (c :: resp'))
                original_texts 0 maps) as (n & _ & Hr & Hend & _).
    exists n. split; [exact Hr |].
    destruct Hend as [H | [H _]]; [now left | now right].
Qed.

Lemma recorded_scalar (resp : list N) (texts : list (list N))
    (p : list N * list N) :
  Forall scalar resp -> Forall (Forall scalar) texts ->
  p ∈ recorded resp texts -> Forall scalar p.1 /\ Forall scalar p.2.
Proof.
  intros Hresp Htexts. destruct p as [t v]. rewrite elem_of_recorded.
  intros (i & seg & Ht & Hseg & _ & ->). cbn [fst snd]. split.
  - eapply Forall_lookup_1; eauto.
  - apply strip_Forall.
    pose proof (split_from_Forall scalar SPLIT_TOKEN 0 [] resp
                  (Forall_nil_2 _) Hresp) as Hall.
    eapply Forall_lookup_1; eauto.
Qed.

Lemma dumpable_fold_record (l : list (list N * list N)) maps :
  dumpable maps.2 = true ->
  (forall p, p ∈ l -> Forall scalar p.1 /\ Forall scalar p.2) ->
  dumpable (fold_left record l maps).2 = true.
Proof.
  revert maps. induction l as [| p l IH]; intros maps Hd Hl; [exact Hd |].
  cbn [fold_left]. apply IH.
  - unfold record. cbn [snd].
    destruct (Hl p) as [H1 H2]; [left |]. now apply dumpable_insert.
  - intros q Hq. apply Hl. now right.
Qed.


(** No [cache.set] raises when the disk takes every write and the dict,
    the texts and the response hold scalar values only. *)
Lemma merge_response_returns writable (resp : list N)
    (original_texts : list (list N)) maps :
  dumpable maps.2 = true -> (forall i, writable i = true) ->
  Forall scalar resp -> Forall (Forall scalar) original_texts ->
  (merge_response writable resp original_texts maps).1 = Return tt.
Proof.
  intros Hd Hw Hresp Htexts. unfold merge_response.
  destruct (truthy resp); [| reflexivity].
  destruct (store_segments_spec writable (split SPLIT_TOKEN resp)
              original_texts 0 maps) as (n & _ & Hr & Hend & _).
  destruct Hend as [[H _] | (_ & m & t & v & _ & _ & Hfail)]; [exact H |].
  rewrite Hw, andb_true_r, Hr in Hfail.
  fold (recorded resp (take n original_texts)) in Hfail.
  rewrite dumpable_fold_record in Hfail; [discriminate | exact Hd |].
  intros p Hp. apply (recorded_scalar resp original_texts p Hresp Htexts).
  eapply recorded_take_sub, Hp.
Qed.

(** The claim of C6 read literally has every text with a non-empty
    segment recorded.  Here the response has two segments, both non-empty
    once stripped, the first of which is a lone surrogate (the JSON
    escape \ud800 of the response body): the first text is written to
    both maps, [cache.set] raises on saving the dict, and the second
    text, whose segment is Salut, is recorded nowhere. *)
Lemma merge_response_stops_at_failed_set :
  let resp := [55296%N] ++ SPLIT_TOKEN ++ py "Salut" in
  let texts := [py "Bye"; py "Hello"] in
  let r := merge_response (fun _ => true) resp texts (∅, ∅) in
  split SPLIT_TOKEN resp = [[55296%N]; py "Salut"]
  /\ texts !! 1%nat = Some (py "Hello")
  /\ strip (py "Salut") <> []
  /\ r.1 = Raise
  /\ r.2.1 !! py "Bye" = Some [55296%N]
  /\ r.2.2 !! py "Bye" = Some [55296%N]
  /\ r.2.1 !! py "Hello" = None /\ r.2.2 !! py "Hello" = None.
Proof.
  cbv zeta. split; [vm_compute; reflexivity |].
  split; [reflexivity |]. split; [vm_compute; discriminate |].
  repeat split; vm_compute; reflexivity.
Qed.

(** C6, amended: the texts of the batch are taken in order until a
    [cache.set] raises.  With [n] the number of positions gone through:
    the writes are exactly the pairs the positions below [n] record, in
    order, so that the text at position i is written, with segment i
    stripped, if and only if i < n and the response split at the
    delimiter has a segment i that is not empty once stripped; a written
    text has the same non-empty entry in the result map and in the dict
    of the cache afterwards, and a text with no such position keeps what
    it had in both.  Either the loop comes to its end (n is the number
    of texts) or the [cache.set] of position n - 1 has raised, after the
    two maps were written: the dict then cannot be dumped to a UTF-8
    file, or the disk refused the file; every [cache.set] before it has
    returned.  An empty response changes neither map.  No [cache.set]
    raises when the disk takes every write and the dict, the texts and
    the response hold Unicode scalar values only. *)
Theorem merge_response_records (writable : nat -> bool) (resp : list N)
    (original_texts : list (list N))
    (all_translations cache : gmap (list N) (list N)) :
  let segs := split SPLIT_TOKEN resp in
  let r := merge_response writable resp original_texts
             (all_translations, cache) in
  (exists n,
     (n <= length original_texts)%nat
     /\ r.2 = fold_left record (recorded resp (take n original_texts))
                (all_translations, cache)
     /\ (forall t v,
           (t, v) ∈ recorded resp (take n original_texts)
           <-> exists i, (i < n)%nat /\ has_segment segs original_texts i t v)
     /\ (forall i t v,
           (i < n)%nat -> has_segment segs original_texts i t v ->
           exists v', v' <> [] /\ r.2.1 !! t = Some v' /\ r.2.2 !! t = Some v')
     /\ (forall t,
           (forall i v, (i < n)%nat ->
                        ~ has_segment segs original_texts i t v) ->
           r.2.1 !! t = all_translations !! t /\ r.2.2 !! t = cache !! t)
     /\ (r.1 = Return tt /\ n = length original_texts
         \/ r.1 = Raise
            /\ exists m t v,
                 n = S m /\ has_segment segs original_texts m t v
                 /\ dumpable r.2.2 && writable m = false)
     /\ (forall m t v,
           (S m < n)%nat -> has_segment segs original_texts m t v ->
           dumpable
             (fold_left record (recorded resp (take (S m) original_texts))
                (all_translations, cache)).2
           && writable m = true))
  /\ (resp = [] -> r = (Return tt, (all_translations, cache)))
  /\ (dumpable cache = true -> (forall i, writable i = true) ->
      Forall scalar resp -> Forall (Forall scalar) original_texts ->
      r.1 = Return tt).
Proof.
  intros segs r.
  assert (exists n,
     (n <= length original_texts)%nat
     /\ r.2 = fold_left record (recorded resp (take n original_texts))
                (all_translations, cache)
     /\ (r.1 = Return tt /\ n = length original_texts
         \/ r.1 = Raise
            /\ exists m t v,
                 n = S m /\ has_segment segs original_texts m t v
                 /\ dumpable r.2.2 && writable m = false)
     /\ (forall m t v,
           (S m < n)%nat -> has_segment segs original_texts m t v ->
           dumpable
             (fold_left record (recorded resp (take (S m) original_texts))
                (all_translations, cache)).2
           && writable m = true)) as (n & Hn & Hr & Hend & Hbefore).
  { subst r. unfold merge_response. destruct resp as [| c resp'].
    - exists (length original_texts). cbn [truthy fst snd].
      split; [lia |]. split.
      { rewrite firstn_all.
        destruct original_texts as [| ? [| ? ?]]; reflexivity. }
      split; [now left |].
      intros m t v _ (_ & seg & Hseg & Hne & _). subst segs.
      destruct m; [| done]. cbn in Hseg. injection Hseg as <-. done.
    - cbn [truthy].
      destruct (store_segments_spec writable segs original_texts 0
                  (all_translations, cache)) as (n & Hn & Hr & Hend & Hbefore).
      exists n. split; [exact Hn |]. split; [exact Hr |].
      split; [exact Hend | exact Hbefore]. }
  split; [| split].
  - exists n. split; [exact Hn |]. split; [exact Hr |].
    split; [apply elem_of_recorded_take |]. split; [| split; [| split]].
    + intros i t v Hi Hs. rewrite Hr.
      assert ((t, v) ∈ recorded resp (take n original_texts)) as Hin.
      { apply elem_of_recorded_take. eauto. }
      destruct (fold_record_written _ (all_translations, cache) _ _ Hin)
        as (v' & Hv' & H1 & H2).
      exists v'. split; [| done].
      apply elem_of_recorded in Hv' as (_ & seg' & _ & _ & Hne' & ->). done.
    + intros t Hnone. rewrite Hr.
      apply (fold_record_unchanged _ (all_translations, cache)).
      intros v Hin. apply elem_of_recorded_take in Hin as (i & Hi & Hs).
      exact (Hnone i v Hi Hs).
    + exact Hend.
    + exact Hbefore.
  - intros ->. reflexivity.
  - intros Hd Hw Hresp Htexts. now apply merge_response_returns.
Qed.

(** A response with fewer usable segments than texts: of three texts
    only the first has a segment that is not empty once stripped. *)
Lemma merge_response_records_witness :
  let resp := py " Au revoir <DEEPL_SPLIT_TOKEN> <DEEPL_SPLIT_TOKEN>" in
  let texts := [py "Bye"; py "Hello"; py "World"] in
  let r := merge_response (fun _ => true) resp texts (∅, ∅) in
  split SPLIT_TOKEN resp = [py " Au revoir "; py " "; []]
  /\ recorded resp texts = [(py "Bye", py "Au revoir")]
  /\ r.1 = Return tt
  /\ r.2.1 !! py "Bye" = Some (py "Au revoir")
  /\ r.2.1 !! py "Hello" = None /\ r.2.2 !! py "Hello" = None.
Proof.
  cbv zeta. split; [vm_compute; reflexivity |].
  split; [vm_compute; reflexivity |].
  split.
  - refine (proj2 (proj2 (merge_response_records (fun _ => true)
                    (py " Au revoir <DEEPL_SPLIT_TOKEN> <DEEPL_SPLIT_TOKEN>")
                    [py "Bye"; py "Hello"; py "World"] ∅ ∅)) _ _ _ _).
    + vm_compute. reflexivity.
    + reflexivity.
    + apply encodable_Forall. vm_compute. reflexivity.
    + repeat (apply Forall_cons; split;
                [apply encodable_Forall; vm_compute; reflexivity |]).
      apply Forall_nil_2.
  - repeat split; vm_compute; reflexivity.
Defined.

(** ** Reassembly *)

Lemma new_blocks_of_app all_translations cache (l1 l2 : list (list N)) :
  new_blocks_of all_translations cache (l1 ++ l2)
  = new_blocks_of all_translations cache l1
    ++ new_blocks_of all_translations cache l2.
Proof.
  unfold new_blocks_of.
  assert (forall l acc,
            fold_left (reassemble_step all_translations cache) l acc
            = acc ++ fold_left (reassemble_step all_translations cache) l [])
    as Hacc.
  { induction l as [| b l IH]; intros acc; simpl.
    - now rewrite app_nil_r.
    - rewrite IH. rewrite (IH (reassemble_step _ _ [] b)).
      rewrite app_assoc. f_equal.
      unfold reassemble_step. destruct (_ <? _)%nat; reflexivity. }
  rewrite fold_left_app. apply Hacc.
Qed.

Lemma new_blocks_of_cons all_translations cache (b : list N)
    (l : list (list N)) :
  new_blocks_of all_translations cache (b :: l)
  = reassemble_step all_translations cache [] b
    ++ new_blocks_of all_translations cache l.
Proof.
  now rewrite (new_blocks_of_app _ _ [b] l).
Qed.

Lemma new_blocks_of_lookup all_translations cache (l : list (list N))
    (i : nat) :
  new_blocks_of all_translations cache l !! i
  = (λ b, default [] (reassemble_step all_translations cache [] b !! 0%nat))
    <$> l !! i.
Proof.
  revert i. induction l as [| b l IH]; intros i; [done |].
  rewrite new_blocks_of_cons.
  assert (exists x, reassemble_step all_translations cache [] b = [x])
    as [x Hx].
  { unfold reassemble_step. destruct (_ <? _)%nat; eauto. }
  destruct i as [| i]; simpl; rewrite Hx; [done | apply IH].
Qed.

Lemma or_else_spec (x : option (list N)) (d : list N) :
  (exists v, x = Some v /\ v <> [] /\ or_else x d = v)
  \/ ((x = None \/ x = Some []) /\ or_else x d = d).
Proof.
  destruct x as [[| c v] |]; simpl; eauto.
Qed.

Lemma translated_first_nonempty all_translations cache (t : list N) :
  first_nonempty all_translations cache t
    (or_else (all_translations !! t)
       (or_else (cache !! t) FAILED_PLACEHOLDER)).
Proof.
  unfold first_nonempty.
  destruct (or_else_spec (all_translations !! t)
              (or_else (cache !! t) FAILED_PLACEHOLDER))
    as [(v & Hv & Hne & ->) | [Hnone ->]]; [left; done |].
  right. split; [exact Hnone |].
  destruct (or_else_spec (cache !! t) FAILED_PLACEHOLDER)
    as [(v & Hv & Hne & ->) | [Hnone' ->]]; [left; done | right; done].
Qed.

Lemma well_formed_lines (block : list N) :
  well_formed block = true ->
  exists index timestamp text_lines,
    split [NEWLINE] block = index :: timestamp :: text_lines.
Proof.
  unfold well_formed. rewrite negb_true_iff, Nat.ltb_ge.
  destruct (split [NEWLINE] block) as [| index [| timestamp text_lines]];
    simpl; [lia | lia | eauto].
Qed.

(** The claim of C5 read literally takes the translated line from the
    result map whenever the map has an entry.  With a cache file that
    holds the empty string for "Hello", the result map has the entry ""
    for that text, and the line written is the placeholder. *)
Lemma reassemble_empty_entry_placeholder :
  let unit1 := py "1" ++ [NEWLINE] ++ py "00:00:01,000 --> 00:00:02,000"
               ++ [NEWLINE] ++ py "Hello" in
  let cache : gmap (list N) (list N) := {[ py "Hello" := [] ]} in
  let all_translations := (plan cache 45000 [unit1]).2 in
  all_translations !! py "Hello" = Some []
  /\ first_present all_translations cache (py "Hello") = []
  /\ result (process_indexed_blocks (steady (fun _ _ => RequestFailed))
               example_settings [unit1] cache [])
     = Written (unit1 ++ [NEWLINE] ++ FAILED_PLACEHOLDER ++ [NEWLINE; NEWLINE])
  /\ result (process_indexed_blocks (steady (fun _ _ => RequestFailed))
               example_settings [unit1] cache [])
     <> Written (unit1 ++ [NEWLINE]
                 ++ first_present all_translations cache (py "Hello")
                 ++ [NEWLINE; NEWLINE]).
Proof.
  cbv zeta. split; [vm_compute; reflexivity |].
  split; [vm_compute; reflexivity |].
  split; [vm_compute; reflexivity |].
  vm_compute. discriminate.
Qed.

(** C5, amended: an entry that is the empty string counts as missing.
    The output is the blocks joined by a blank line and ended by a blank
    line, one block per unit in file order; the block of a unit with at
    least two lines is its first line (index) and second line (time
    range) as they are, its further lines except those empty once
    stripped, and one more element, the translated line, which is the
    entry of the result map if present and non-empty, else the entry of
    the cache if present and non-empty, else the placeholder. *)
Theorem reassemble_blocks all_translations cache
    (indexed_blocks : list (list N)) :
  exists new_blocks,
    reassemble all_translations cache indexed_blocks
    = join [NEWLINE; NEWLINE] new_blocks ++ [NEWLINE; NEWLINE]
    /\ length new_blocks = length indexed_blocks
    /\ forall i block,
         indexed_blocks !! i = Some block -> well_formed block = true ->
         exists index timestamp text_lines translated,
           split [NEWLINE] block = index :: timestamp :: text_lines
           /\ new_blocks !! i
              = Some (join [NEWLINE]
                        ([index; timestamp]
                         ++ filter (λ l, strip l <> []) text_lines
                         ++ [translated]))
           /\ first_nonempty all_translations cache
                (english_text_of text_lines) translated.
Proof.
  exists (new_blocks_of all_translations cache indexed_blocks).
  split; [reflexivity |]. split.
  - induction indexed_blocks as [| b l IH]; [done |].
    rewrite new_blocks_of_cons, length_app, IH.
    unfold reassemble_step. destruct (_ <? _)%nat; reflexivity.
  - intros i block Hi Hwf.
    destruct (well_formed_lines block Hwf)
      as (index & timestamp & text_lines & Hlines).
    exists index, timestamp, text_lines. eexists.
    split; [exact Hlines |].
    rewrite new_blocks_of_lookup, Hi. cbn [fmap option_fmap option_map].
    unfold reassemble_step. rewrite Hlines.
    cbn [length Nat.ltb Nat.leb nth drop app lookup list_lookup default].
    rewrite !drop_0. unfold id.
    replace (filter (λ l, truthy (strip l) = true) text_lines)
      with (filter (λ l, strip l <> []) text_lines)
      by (apply list_filter_iff; intros l; symmetry; apply truthy_true).
    split; [reflexivity | apply translated_first_nonempty].
Qed.

(** The example of the specification: the unit
    "1\n00:00:01,000 --> 00:00:02,000\nHello [music] world\n" has the
    clean text "Hello  world"; with the cached translation "你好 世界"
    its block in the output is the three lines followed by that
    translation. *)
Lemma reassemble_blocks_witness :
  let unit1 := py "1" ++ [NEWLINE] ++ py "00:00:01,000 --> 00:00:02,000"
               ++ [NEWLINE] ++ py "Hello [music] world" ++ [NEWLINE] in
  let translation := [20320; 22909; 32; 19990; 30028]%N in
  let cache : gmap (list N) (list N) := {[ py "Hello  world" := translation ]}
  in
  clean_text unit1 = py "Hello  world"
  /\ reassemble (plan cache 45000 [unit1]).2 cache [unit1]
     = py "1" ++ [NEWLINE] ++ py "00:00:01,000 --> 00:00:02,000"
       ++ [NEWLINE] ++ py "Hello [music] world" ++ [NEWLINE] ++ translation
       ++ [NEWLINE; NEWLINE]
  /\ exists new_blocks,
       reassemble (plan cache 45000 [unit1]).2 cache [unit1]
       = join [NEWLINE; NEWLINE] new_blocks ++ [NEWLINE; NEWLINE]
       /\ length new_blocks = 1%nat.
Proof.
  cbv zeta. split; [vm_compute; reflexivity |].
  split; [vm_compute; reflexivity |].
  destruct (reassemble_blocks
              (plan {[ py "Hello  world" := [20320; 22909; 32; 19990; 30028]%N ]}
                 45000
                 [py "1" ++ [NEWLINE] ++ py "00:00:01,000 --> 00:00:02,000"
                  ++ [NEWLINE] ++ py "Hello [music] world" ++ [NEWLINE]]).2
              {[ py "Hello  world" := [20320; 22909; 32; 19990; 30028]%N ]}
              [py "1" ++ [NEWLINE] ++ py "00:00:01,000 --> 00:00:02,000"
               ++ [NEWLINE] ++ py "Hello [music] world" ++ [NEWLINE]])
    as (new_blocks & Hout & Hlen & _).
  exists new_blocks. split; [exact Hout | exact Hlen].
Defined.

(** ** Units with fewer than two lines *)



(** ** Runs on a warm cache *)


















(** ** Loading the cache *)

Lemma load_cache_absent json_loads : _load_cache json_loads None = inr ∅.
Proof. reflexivity. Qed.

Lemma load_cache_unparsable json_loads bytes text :
  utf8_decode bytes = Some text ->
  json_loads (universal_newlines text) = None ->
  _load_cache json_loads (Some bytes) = inr ∅.
Proof. intros Hd Hj. unfold _load_cache. now rewrite Hd, Hj. Qed.

(** C7 fails on a cache file that is not valid UTF-8, such as a file cut
    off inside a multi-byte character: an opening brace, the key a in
    quotes, a colon, a space and an opening quote, followed by the first
    two of the three bytes of the character U+4F60.  Decoding raises
    UnicodeDecodeError before the JSON parser runs; the [except] clause
    names json.JSONDecodeError only, so [_load_cache] raises, whatever
    the parser, and [main], which builds the cache outside any [try],
    ends with exit code 1 and no file processed. *)
Theorem load_cache_undecodable is_decimal json_loads env srt_files :
  let bytes := [123; 34; 97; 34; 58; 32; 34; 228; 189]%N in
  let r := main is_decimal json_loads (Some example_settings)
             (UsageBody (UsageData (Some 0) (Some 500000) ResetUnknown))
             (Some bytes) env srt_files in
  utf8_decode bytes = None
  /\ _load_cache json_loads (Some bytes) = inl UnicodeDecodeError
  /\ quota_report r = Some QuotaPassed
  /\ exit_code r = 1
  /\ files_processed r = [].
Proof.
  cbv zeta. repeat split; reflexivity.
Qed.

(** ** A whole file *)

(** Three captions: the first is a cache hit, the other two go out in one
    batch, and the answer has a usable segment for the first of them
    only.  The output keeps every header and text line, adds the cached
    and the fresh translation, and the placeholder for the third. *)
Example process_srt_file_example :
  let content :=
    py "junk" ++ [NEWLINE] ++ py "1" ++ [NEWLINE]
    ++ py "00:00:01,000 --> 00:00:02,000" ++ [NEWLINE]
    ++ py "Hello [music] world" ++ [NEWLINE; NEWLINE] ++ py "12"
    ++ [NEWLINE] ++ py "00:00:03,000 --> 00:00:04,000" ++ [NEWLINE]
    ++ py "Bye" ++ [NEWLINE; NEWLINE] ++ py "13" ++ [NEWLINE]
    ++ py "00:00:05,000 --> 00:00:06,000" ++ [NEWLINE] ++ py "{x} "
    ++ [NEWLINE] ++ py "Tschuss" ++ [NEWLINE] in
  let r := process_srt_file ascii_decimal
             (steady (fun _ _ => Translated (py " Au revoir <DEEPL_SPLIT_TOKEN>")))
             example_settings (Some content)
             {[ py "Hello  world" := py "Bonjour le monde" ]} [] in
  result r
  = Written
      (py "1" ++ [NEWLINE] ++ py "00:00:01,000 --> 00:00:02,000"
       ++ [NEWLINE] ++ py "Hello [music] world" ++ [NEWLINE]
       ++ py "Bonjour le monde" ++ [NEWLINE; NEWLINE] ++ py "12"
       ++ [NEWLINE] ++ py "00:00:03,000 --> 00:00:04,000" ++ [NEWLINE]
       ++ py "Bye" ++ [NEWLINE] ++ py "Au revoir" ++ [NEWLINE; NEWLINE]
       ++ py "13" ++ [NEWLINE] ++ py "00:00:05,000 --> 00:00:06,000"
       ++ [NEWLINE] ++ py "{x} " ++ [NEWLINE] ++ py "Tschuss" ++ [NEWLINE]
       ++ FAILED_PLACEHOLDER ++ [NEWLINE; NEWLINE])
  /\ requests_after r
     = [py "Bye<DEEPL_SPLIT_TOKEN>Tschuss<DEEPL_SPLIT_TOKEN>"]
  /\ cache_after r !! py "Bye" = Some (py "Au revoir")
  /\ cache_after r !! py "Tschuss" = None.
Proof.
  cbv zeta. repeat split; vm_compute; reflexivity.
Qed.

(** The same file when the delay configured is negative: the answer is
    read, [time.sleep] raises ValueError, nothing is stored and the
    output file is not written. *)
Example process_srt_file_negative_delay :
  let content :=
    py "1" ++ [NEWLINE] ++ py "00:00:01,000 --> 00:00:02,000" ++ [NEWLINE]
    ++ py "Bye" ++ [NEWLINE] in
  let r := process_srt_file ascii_decimal
             (steady (fun _ _ => Translated (py "Au revoir")))
             (Settings (decimal (-1) 1) (decimal 9 10) 45000) (Some content)
             ∅ [] in
  result r = FileFailed
  /\ requests_after r = [py "Bye<DEEPL_SPLIT_TOKEN>"]
  /\ cache_after r = ∅.
Proof.
  cbv zeta. repeat split; vm_compute; reflexivity.
Qed.

(** * Further properties of the code *)

(** ** [str.strip] *)

Lemma lstrip_suffix (s : list N) : exists p, s = p ++ lstrip s.
Proof.
  induction s as [| c r [p IH]]; [by exists [] |].
  simpl. destruct (isspace c); [| by exists []].
  exists (c :: p). simpl. now rewrite <- IH.
Qed.

Lemma lstrip_head (s : list N) :
  lstrip s = [] \/ exists c r, lstrip s = c :: r /\ isspace c = false.
Proof.
  induction s as [| c r IH]; [by left |].
  simpl. destruct (isspace c) eqn:E; [exact IH | right; eauto].
Qed.

Lemma lstrip_id (c : N) (r : list N) :
  isspace c = false -> lstrip (c :: r) = c :: r.
Proof. intros E. simpl. now rewrite E. Qed.

Lemma lstrip_snoc (l : list N) (c : N) :
  isspace c = false -> lstrip (l ++ [c]) = lstrip l ++ [c].
Proof.
  intros E. induction l as [| a l IH]; simpl; [now rewrite E |].
  destruct (isspace a); [exact IH | reflexivity].
Qed.

(** A string is trimmed when it is empty or begins and ends with a
    character that is not white space. *)
Lemma strip_shape (s : list N) :
  strip s = []
  \/ exists a m b, (strip s = [a] \/ strip s = a :: m ++ [b])
                   /\ isspace a = false /\ isspace b = false.
Proof.
  unfold strip, rstrip.
  destruct (lstrip_head s) as [-> | (a & r & -> & Ha)]; [by left |].
  rewrite reverse_cons, (lstrip_snoc _ _ Ha), reverse_app. simpl.
  destruct (lstrip_head (reverse r)) as [-> | (b & m & -> & Hb)].
  - right. exists a, [], a. auto.
  - right. exists a, (reverse m), b. split; [| done].
    right. now rewrite reverse_cons.
Qed.

Lemma strip_trimmed (a b : N) (m : list N) :
  isspace a = false -> isspace b = false ->
  strip [a] = [a] /\ strip (a :: m ++ [b]) = a :: m ++ [b].
Proof.
  intros Ha Hb. unfold strip, rstrip. split.
  - rewrite (lstrip_id _ _ Ha). change (reverse [a]) with [a].
    now rewrite (lstrip_id _ _ Ha).
  - rewrite (lstrip_id _ _ Ha).
    change (a :: m ++ [b]) with ((a :: m) ++ [b]).
    rewrite reverse_app. simpl. rewrite Hb.
    now rewrite reverse_cons, reverse_involutive.
Qed.

Lemma strip_idempotent (s : list N) : strip (strip s) = strip s.
Proof.
  destruct (strip_shape s) as [-> | (a & m & b & [-> | ->] & Ha & Hb)];
    [reflexivity | |].
  - apply (strip_trimmed a a [] Ha Ha).
  - apply (strip_trimmed a b m Ha Hb).
Qed.

Lemma strip_nonempty (p q : list N) (c : N) :
  isspace c = false -> strip (p ++ c :: q) <> [].
Proof.
  intros Hc. unfold strip, rstrip.
  assert (exists u, lstrip (p ++ c :: q) = u ++ c :: q) as [u ->].
  { induction p as [| a p [u IH]]; simpl.
    - rewrite Hc. by exists [].
    - destruct (isspace a); [by exists u | by exists (a :: p)]. }
  rewrite reverse_app, reverse_cons.
  assert (forall l k : list N, lstrip ((l ++ [c]) ++ k) <> []) as Hne.
  { induction l as [| a l IH]; intros k; simpl.
    - now rewrite Hc.
    - destruct (isspace a); [apply IH | discriminate]. }
  intros E. apply (f_equal reverse) in E. rewrite reverse_involutive in E.
  now apply Hne in E.
Qed.

(** ** The translation loop: requests *)

Lemma batch_string_posted (texts : list (list N)) :
  texts <> [] -> truthy (strip (batch_string texts)) = true.
Proof.
  intros Hne. apply truthy_true.
  destruct texts as [| t texts]; [done |].
  unfold batch_string. cbn [fmap list_fmap concat].
  rewrite <- app_assoc.
  change (SPLIT_TOKEN ++ concat ((λ t, t ++ SPLIT_TOKEN) <$> texts))
    with (60%N :: (py "DEEPL_SPLIT_TOKEN>"
                   ++ concat ((λ t, t ++ SPLIT_TOKEN) <$> texts))).
  now apply strip_nonempty.
Qed.

Lemma translate_requests env s sent (texts : list (list N)) :
  texts <> [] ->
  (translate env s sent (batch_string texts)).2
  = sent ++ [batch_string texts].
Proof.
  intros Hne. unfold translate. rewrite (batch_string_posted _ Hne).
  cbn [negb]. destruct (post env sent _); [destruct (time_sleep _ _) | ..];
    reflexivity.
Qed.

Lemma translate_batches_requests env s MAX_CHARS bs st :
  Forall (within_budget MAX_CHARS) bs ->
  exists k,
    (k <= length bs)%nat
    /\ requests (translate_batches env s bs st).2
       = requests st ++ (fst <$> take k bs)
    /\ ((translate_batches env s bs st).1 = Return tt -> k = length bs).
Proof.
  revert st. induction bs as [| [batch_text texts] bs IH]; intros st Hok.
  - exists 0%nat. simpl. now rewrite app_nil_r.
  - apply Forall_cons in Hok as [(Hstr & Hne & _) Hok].
    cbn [fst snd] in Hstr, Hne. cbn [translate_batches].
    pose proof (translate_requests env s (requests st) texts Hne) as Hsent.
    rewrite <- Hstr in Hsent.
    destruct (translate env s (requests st) batch_text) as [outcome sent'].
    cbn [snd] in Hsent. subst sent'.
    assert (exists k,
              (k <= length ((batch_text, texts) :: bs))%nat
              /\ requests st ++ [batch_text]
                 = requests st ++ (fst <$> take k ((batch_text, texts) :: bs))
              /\ k = 1%nat) as Hstop.
    { exists 1%nat. split; [simpl; lia |]. split; [| reflexivity].
      cbn [take fmap list_fmap fst]. now rewrite take_0. }
    destruct outcome as [resp | |].
    + destruct (merge_response _ resp texts _) as [[[] | |] maps].
      * destruct (IH (TranslateState maps.1 maps.2
                        (requests st ++ [batch_text])) Hok)
          as (k & Hk & Hreq & Hall).
        exists (S k). split; [simpl; lia |]. split.
        -- rewrite Hreq. cbn [requests take fmap list_fmap fst].
           now rewrite <- app_assoc.
        -- intros E. simpl. f_equal. now apply Hall.
      * destruct Hstop as (k & Hk & Hreq & ->). exists 1%nat.
        split; [exact Hk |]. split; [exact Hreq | discriminate].
      * destruct Hstop as (k & Hk & Hreq & ->). exists 1%nat.
        split; [exact Hk |]. split; [exact Hreq | discriminate].
    + destruct Hstop as (k & Hk & Hreq & ->). exists 1%nat.
      split; [exact Hk |]. split; [exact Hreq | discriminate].
    + destruct Hstop as (k & Hk & Hreq & ->). exists 1%nat.
      split; [exact Hk |]. split; [exact Hreq | discriminate].
Qed.

(** The requests a file causes are the strings of its planned batches, in
    plan order: one POST per batch, none for anything else, each batch
    text non-blank so that [translate] never answers without asking.
    The loop may stop early (403 or an exception); when the file is
    written, every batch has been sent exactly once. *)
Theorem requests_one_per_batch env s (indexed_blocks : list (list N))
    cache sent :
  let r := process_indexed_blocks env s indexed_blocks cache sent in
  let bs := (plan cache (max_batch_chars s) indexed_blocks).1 in
  (exists k, (k <= length bs)%nat
             /\ requests_after r = sent ++ (fst <$> take k bs))
  /\ (forall output, result r = Written output ->
        requests_after r = sent ++ (fst <$> bs)).
Proof.
  intros r bs.
  destruct (plan_batches cache (max_batch_chars s) indexed_blocks)
    as [_ Hok].
  destruct (translate_batches_requests env s (max_batch_chars s) bs
              (TranslateState (plan cache (max_batch_chars s) indexed_blocks).2
                 cache sent) Hok) as (k & Hk & Hreq & Hall).
  subst r. unfold process_indexed_blocks. cbn zeta. fold bs.
  destruct (translate_batches env s bs _) as [[[] | |] st];
    cbn [fst snd requests requests_after result] in *.
  - split; [eauto |]. intros output _.
    rewrite Hreq, (Hall eq_refl). now rewrite firstn_all.
  - split; [eauto | discriminate].
  - split; [eauto | discriminate].
Qed.

(** ** The translation loop: failures *)















(** ** The cache over a run *)

Lemma fold_record_lookup (l : list (list N * list N)) maps (t v : list N) :
  (fold_left record l maps).2 !! t = Some v ->
  maps.2 !! t = Some v \/ (t, v) ∈ l.
Proof.
  revert maps. induction l as [| [t0 v0] l IH]; intros maps H; [by left |].
  cbn [fold_left] in H. apply IH in H as [H | H]; [| right; now right].
  unfold record in H. cbn [fst snd] in H.
  destruct (decide (t0 = t)) as [-> | Hne].
  - rewrite lookup_insert_eq in H. injection H as ->. right. left.
  - rewrite lookup_insert_ne in H by done. now left.
Qed.

Lemma recorded_key (resp : list N) (texts : list (list N)) (t v : list N) :
  (t, v) ∈ recorded resp texts -> t ∈ texts /\ v <> [] /\ strip v = v.
Proof.
  intros H. apply elem_of_recorded in H as (i & seg & Ht & _ & Hne & ->).
  split; [by eapply list_elem_of_lookup_2 |].
  split; [done | apply strip_idempotent].
Qed.

Lemma translate_batches_cache_new env s bs st (t v : list N) :
  cache_dict (translate_batches env s bs st).2 !! t = Some v ->
  cache_dict st !! t = Some v
  \/ ((exists b, b ∈ bs /\ t ∈ b.2) /\ v <> [] /\ strip v = v).
Proof.
  revert st. induction bs as [| [batch_text texts] bs IH]; intros st H;
    [by left |].
  cbn [translate_batches] in H.
  destruct (translate env s (requests st) batch_text) as [[resp | |] sent'];
    [| by left | by left].
  destruct (merge_response_fold (disk env sent') resp texts
              (result_map st, cache_dict st)) as (n & Hmaps & _).
  assert (forall maps,
            maps = fold_left record (recorded resp (take n texts))
                     (result_map st, cache_dict st) ->
            maps.2 !! t = Some v ->
            cache_dict st !! t = Some v
            \/ ((exists b, b ∈ (batch_text, texts) :: bs /\ t ∈ b.2)
                /\ v <> [] /\ strip v = v)) as Hstep.
  { intros maps -> Hv.
    apply fold_record_lookup in Hv as [Hv | Hv]; [by left |].
    apply recorded_take_sub, recorded_key in Hv as (Hin & Hv).
    right. split; [| done].
    exists (batch_text, texts). split; [left | done]. }
  destruct (merge_response (disk env sent') resp texts _)
    as [[[] | |] maps]; cbn [snd fst cache_dict] in *.
  - apply IH in H as [H | ((b & Hb & Hin) & Hv)].
    + cbn [cache_dict] in H. now apply (Hstep maps).
    + right. split; [| done]. exists b. split; [now right | done].
  - now apply (Hstep maps).
  - now apply (Hstep maps).
Qed.

Lemma translate_batches_cache_kept env s bs st (t : list N) :
  (forall b, b ∈ bs -> t ∉ b.2) ->
  cache_dict (translate_batches env s bs st).2 !! t = cache_dict st !! t.
Proof.
  revert st. induction bs as [| [batch_text texts] bs IH]; intros st Hnot;
    [done |].
  cbn [translate_batches].
  destruct (translate env s (requests st) batch_text) as [[resp | |] sent'];
    [| done | done].
  destruct (merge_response_fold (disk env sent') resp texts
              (result_map st, cache_dict st)) as (n & Hmaps & _).
  assert (forall maps,
            maps = fold_left record (recorded resp (take n texts))
                     (result_map st, cache_dict st) ->
            maps.2 !! t = cache_dict st !! t) as Hstep.
  { intros maps ->.
    apply (fold_record_unchanged _ (result_map st, cache_dict st)).
    intros v Hin. apply recorded_take_sub, recorded_key in Hin as [Hin _].
    apply (Hnot (batch_text, texts)); [left | done]. }
  destruct (merge_response (disk env sent') resp texts _)
    as [[[] | |] maps]; cbn [snd fst cache_dict] in *.
  - rewrite IH by (intros b Hb; apply Hnot; now right).
    cbn [cache_dict]. now apply Hstep.
  - now apply Hstep.
  - now apply Hstep.
Qed.

Lemma plan_batch_texts_uncached cache MAX_CHARS
    (indexed_blocks : list (list N)) b (t : list N) :
  b ∈ (plan cache MAX_CHARS indexed_blocks).1 -> t ∈ b.2 ->
  t ∈ clean_texts indexed_blocks /\ cache !! t = None.
Proof.
  intros Hb Ht. apply elem_of_uncached.
  destruct (plan_batches cache MAX_CHARS indexed_blocks) as [<- _].
  apply list_elem_of_lookup in Hb as [i Hi].
  apply (elem_of_concat_lookup _ i b.2); [| done].
  now rewrite list_lookup_fmap, Hi.
Qed.

Lemma process_cache_after env s (indexed_blocks : list (list N))
    cache sent :
  cache_after (process_indexed_blocks env s indexed_blocks cache sent)
  = cache_dict (translated_state env s indexed_blocks cache sent).2.
Proof.
  unfold process_indexed_blocks, translated_state. cbn zeta.
  destruct (translate_batches env s _ _) as [[[] | |] st]; reflexivity.
Qed.

(** The cache is append-only while a file is processed, however the
    processing ends: an entry it had at the start is still there with the
    same translation (nothing is evicted or overwritten), and an entry it
    gains is for a clean text of the file that was not cached, with a
    translation that is not empty and has no white space around it. *)
Theorem cache_append_only env s (indexed_blocks : list (list N))
    cache sent :
  let cache' :=
    cache_after
      (process_indexed_blocks env s indexed_blocks cache sent) in
  cache ⊆ cache'
  /\ forall t v, cache' !! t = Some v ->
       cache !! t = Some v
       \/ (cache !! t = None /\ t ∈ clean_texts indexed_blocks
           /\ v <> [] /\ strip v = v).
Proof.
  intros cache'. subst cache'. rewrite process_cache_after.
  unfold translated_state. split.
  - apply map_subseteq_spec. intros t v Hc.
    rewrite translate_batches_cache_kept; [exact Hc |].
    intros b Hb Ht.
    destruct (plan_batch_texts_uncached _ _ _ _ _ Hb Ht) as [_ Hnone].
    congruence.
  - intros t v H.
    apply translate_batches_cache_new in H as [H | ((b & Hb & Ht) & Hv)];
      [by left |].
    right. destruct (plan_batch_texts_uncached _ _ _ _ _ Hb Ht). done.
Qed.


(** ** The loop over the files *)





(** ** Cutting the text into blocks *)

Lemma match_header_pos is_decimal (s : list N) n :
  match_header is_decimal s = Some n -> (0 < n)%nat.
Proof.
  destruct s as [| c r]; cbn [match_header]; [done |].
  destruct (is_decimal c); [| done].
  destruct (match_header is_decimal r); [intros [= <-]; lia |].
  destruct (match_items is_decimal HEADER_TAIL r); [| done].
  intros [= <-]. lia.
Qed.

Lemma re_split_concat is_decimal skip cur (s : list N) :
  concat (re_split is_decimal skip cur s) = reverse cur ++ drop skip s.
Proof.
  revert skip cur. induction s as [| c r IH]; intros skip cur;
    cbn [re_split].
  - rewrite drop_nil. simpl. now rewrite app_nil_r.
  - destruct skip as [| k]; [| apply IH].
    destruct (match_header is_decimal (c :: r)) as [n |] eqn:Hm.
    + apply match_header_pos in Hm. destruct n as [| n]; [lia |].
      cbn [concat]. rewrite IH. cbn [Nat.sub].
      rewrite Nat.sub_0_r, drop_0. f_equal.
      change (reverse [] ++ drop n r) with (drop (S n) (c :: r)).
      now rewrite take_drop.
    + rewrite IH, reverse_cons, drop_0, <- app_assoc. reflexivity.
Qed.

Lemma pair_up_concat (pieces blocks : list (list N)) :
  pair_up pieces = Some blocks -> concat blocks = concat pieces.
Proof.
  revert blocks.
  induction pieces as [pieces IH] using (induction_ltof1 _ length).
  unfold ltof in IH. intros blocks.
  destruct pieces as [| header [| text rest]]; cbn [pair_up];
    [by intros [= <-] | done |].
  destruct (pair_up rest) as [blocks' |] eqn:E; [| done].
  intros [= <-]. cbn [concat].
  rewrite (IH rest) by (simpl; lia || done).
  now rewrite <- app_assoc.
Qed.

Lemma match_items_le is_decimal items (s : list N) m :
  match_items is_decimal items s = Some m -> (m <= length s)%nat.
Proof.
  revert s m. induction items as [| it items IH]; intros s m;
    cbn [match_items].
  - intros [= <-]. lia.
  - destruct s as [| c r]; [done |].
    destruct (match it with Digit => _ | Lit l => _ end); [| done].
    destruct (match_items is_decimal items r) as [m' |] eqn:E; [| done].
    intros [= <-]. apply IH in E. simpl. lia.
Qed.

Lemma match_header_le is_decimal (s : list N) n :
  match_header is_decimal s = Some n -> (n <= length s)%nat.
Proof.
  revert n. induction s as [| c r IH]; intros n; cbn [match_header];
    [done |].
  destruct (is_decimal c); [| done].
  destruct (match_header is_decimal r) as [m |].
  - intros [= <-]. specialize (IH m eq_refl). simpl. lia.
  - destruct (match_items is_decimal HEADER_TAIL r) as [m |] eqn:E; [| done].
    intros [= <-]. apply match_items_le in E. simpl. lia.
Qed.

Lemma re_split_skip is_decimal skip cur (s : list N) :
  re_split is_decimal skip cur s = re_split is_decimal 0 cur (drop skip s).
Proof.
  revert skip. induction s as [| c r IH]; intros skip.
  - now rewrite drop_nil.
  - destruct skip as [| k]; [reflexivity |]. cbn [re_split drop]. apply IH.
Qed.

(** [re_split] cuts at the leftmost headers: the first piece runs up to
    the first position at which the pattern matches, and so on after
    each match. *)
Lemma re_split_cut is_decimal (s : list N) :
  forall cur,
  exists t pieces,
    re_split is_decimal 0 cur s = (reverse cur ++ t) :: pieces
    /\ s = t ++ concat pieces
    /\ no_header_before is_decimal (length t) s
    /\ pieces_cut is_decimal pieces.
Proof.
  induction s as [s IH] using (induction_ltof1 _ length).
  unfold ltof in IH. intros cur. destruct s as [| c r].
  - exists [], []. cbn [re_split]. rewrite app_nil_r.
    split; [reflexivity |]. split; [reflexivity |].
    split; [intros j Hj; simpl in Hj; lia | exact I].
  - cbn [re_split].
    destruct (match_header is_decimal (c :: r)) as [n |] eqn:Hm.
    + pose proof (match_header_pos _ _ _ Hm) as Hpos.
      pose proof (match_header_le _ _ _ Hm) as Hle.
      destruct n as [| n]; [lia |]. cbn [Nat.sub]. rewrite Nat.sub_0_r.
      rewrite re_split_skip.
      change (drop n r) with (drop (S n) (c :: r)).
      destruct (IH (drop (S n) (c :: r))) with (cur := @nil N)
        as (t' & pieces' & Hsplit & Hcat & Hno & Hcut).
      { rewrite length_drop. simpl. lia. }
      rewrite Hsplit. cbn [reverse app].
      exists [], (take (S n) (c :: r) :: t' :: pieces').
      rewrite app_nil_r. split; [reflexivity |]. split; [| split].
      * cbn [concat app]. rewrite <- Hcat. now rewrite take_drop.
      * intros j Hj. simpl in Hj. lia.
      * cbn [pieces_cut]. rewrite <- Hcat, take_drop.
        split; [| split; [exact Hno | exact Hcut]].
        rewrite Hm. f_equal. rewrite length_take. lia.
    + destruct (IH r) with (cur := c :: cur)
        as (t' & pieces' & Hsplit & Hcat & Hno & Hcut); [simpl; lia |].
      rewrite Hsplit. exists (c :: t'), pieces'.
      split; [now rewrite reverse_cons, <- app_assoc |].
      split; [cbn [app]; now rewrite <- Hcat |].
      split; [| exact Hcut].
      intros j Hj. destruct j as [| j]; [exact Hm |].
      cbn [drop]. apply Hno. simpl in Hj. lia.
Qed.

Lemma pair_up_cut is_decimal (pieces : list (list N)) :
  pieces_cut is_decimal pieces ->
  exists blocks,
    pair_up pieces = Some blocks
    /\ concat blocks = concat pieces
    /\ cut_at_headers is_decimal blocks.
Proof.
  induction pieces as [pieces IH] using (induction_ltof1 _ length).
  unfold ltof in IH.
  destruct pieces as [| header [| text rest]]; cbn [pieces_cut pair_up];
    [by exists [] | done |].
  intros (Hm & Hno & Hcut).
  destruct (IH rest) as (blocks & -> & Hcat & Hblocks); [simpl; lia | done |].
  exists ((header ++ text) :: blocks). cbn [fmap option_fmap option_map].
  split; [reflexivity |]. split.
  { cbn [concat]. now rewrite Hcat, <- app_assoc. }
  cbn [cut_at_headers]. split; [| exact Hblocks].
  exists (length header). rewrite Hcat, <- app_assoc.
  split; [exact Hm |]. split; [rewrite length_app; lia |].
  intros j Hj. rewrite length_app in Hj.
  rewrite drop_app_ge by lia.
  apply Hno. lia.
Qed.

(** Cutting a text into blocks never fails (the IndexError of an odd
    number of pieces cannot happen) and loses nothing but what precedes
    the first caption header: the stripped text is a preamble, inside
    which no header begins, followed by the blocks, end to end; each
    block begins with a header, and no header begins further inside it,
    so that the block runs up to the next header or to the end of the
    text.  Every block therefore has at least two lines: on blocks cut
    from a file the test [len(lines) < 2] of the two loops is never
    true. *)
Theorem parse_blocks_partition is_decimal (content : list N) :
  exists preamble indexed_blocks,
    parse_blocks is_decimal content = Some indexed_blocks
    /\ strip content = preamble ++ concat indexed_blocks
    /\ no_header_before is_decimal (length preamble) (strip content)
    /\ cut_at_headers is_decimal indexed_blocks
    /\ Forall (λ b, well_formed b = true) indexed_blocks.
Proof.
  unfold parse_blocks.
  destruct (re_split_cut is_decimal (strip content) [])
    as (preamble & pieces & Hsplit & Hcat & Hno & Hcut).
  destruct (pair_up_cut is_decimal pieces Hcut)
    as (blocks & Hpair & Hblocks & Hcutb).
  destruct (parse_blocks_well_formed is_decimal content)
    as (blocks' & Hparse & Hwf).
  unfold parse_blocks in Hparse. rewrite Hsplit in Hparse |- *.
  cbn [drop] in Hparse |- *. rewrite drop_0 in Hparse |- *.
  rewrite Hpair in Hparse. injection Hparse as <-.
  exists preamble, blocks. split; [exact Hpair |].
  split; [now rewrite Hblocks |].
  split; [exact Hno |]. split; [exact Hcutb | exact Hwf].
Qed.

(** Two captions after a line of another kind: the preamble is that
    line, and the digits 12 are read as one run, the header of the
    second block. *)
Example parse_blocks_partition_example :
  let content :=
    py "junk" ++ [NEWLINE] ++ py "1" ++ [NEWLINE]
    ++ py "00:00:01,000 --> 00:00:02,000" ++ [NEWLINE] ++ py "Hello"
    ++ [NEWLINE; NEWLINE] ++ py "12" ++ [NEWLINE]
    ++ py "00:00:03,000 --> 00:00:04,000" ++ [NEWLINE] ++ py "Bye" in
  re_split ascii_decimal 0 [] content
  = [py "junk" ++ [NEWLINE];
     py "1" ++ [NEWLINE] ++ py "00:00:01,000 --> 00:00:02,000" ++ [NEWLINE];
     py "Hello" ++ [NEWLINE; NEWLINE];
     py "12" ++ [NEWLINE] ++ py "00:00:03,000 --> 00:00:04,000" ++ [NEWLINE];
     py "Bye"]
  /\ match_header ascii_decimal (drop 44 content) = Some 33%nat
  /\ match_header ascii_decimal (drop 45 content) = Some 32%nat.
Proof.
  cbv zeta. repeat split; vm_compute; reflexivity.
Qed.




(** ** Writing and reading back the cache file *)

Ltac decide_N :=
  repeat match goal with
    | |- context [(?a <? ?b)%N] =>
        destruct (N.ltb_spec a b); try (exfalso; lia)
    | |- context [(?a <=? ?b)%N] =>
        destruct (N.leb_spec a b); try (exfalso; lia)
    end;
  cbn [andb negb].

Lemma utf8_decode_encode_char (c : N) (b rest : list N) :
  utf8_encode_char c = Some b ->
  utf8_decode (b ++ rest) = cons c <$> utf8_decode rest.
Proof.
  unfold utf8_encode_char.
  pose proof (N.div_mod c 64 ltac:(lia)) as E1.
  pose proof (N.mod_lt c 64 ltac:(lia)) as L1.
  pose proof (N.div_mod (c / 64) 64 ltac:(lia)) as E2.
  pose proof (N.mod_lt (c / 64) 64 ltac:(lia)) as L2.
  pose proof (N.div_mod (c / 4096) 64 ltac:(lia)) as E3.
  pose proof (N.mod_lt (c / 4096) 64 ltac:(lia)) as L3.
  assert (c / 4096 = c / 64 / 64)%N as D2
    by (rewrite N.Div0.div_div; reflexivity).
  assert (c / 262144 = c / 4096 / 64)%N as D3
    by (rewrite N.Div0.div_div; reflexivity).
  assert ((c / 4096) mod 64 = (c / 64 / 64) mod 64)%N as M3
    by (now rewrite D2).
  set (q1 := (c / 64)%N) in *. set (r1 := (c mod 64)%N) in *.
  set (r2 := (q1 mod 64)%N) in *.
  destruct (N.ltb_spec c 128).
  { intros [= <-]. cbn [app utf8_decode]. decide_N. reflexivity. }
  destruct (N.ltb_spec c 2048).
  { intros [= <-]. cbn [app utf8_decode]. unfold continuation. decide_N.
    f_equal. f_equal. lia. }
  destruct (N.ltb_spec c 65536).
  { destruct ((55296 <=? c)%N && (c <=? 57343)%N) eqn:S; [done |].
    apply andb_false_iff in S.
    intros [= <-]. cbn [app utf8_decode]. unfold continuation.
    rewrite D2 in *. set (q2 := (q1 / 64)%N) in *.
    replace ((224 + q2 - 224) * 4096 + (128 + r2 - 128) * 64
             + (128 + r1 - 128))%N with c by lia.
    destruct S as [S | S]; [apply N.leb_gt in S | apply N.leb_gt in S];
      decide_N; reflexivity. }
  destruct (N.ltb_spec c 1114112); [| done].
  intros [= <-]. cbn [app utf8_decode]. unfold continuation.
  rewrite D3, M3, D2 in *. set (q2 := (q1 / 64)%N) in *.
  set (r3 := (q2 mod 64)%N) in *. set (q3 := (q2 / 64)%N) in *.
  replace ((240 + q3 - 240) * 262144 + (128 + r3 - 128) * 4096
           + (128 + r2 - 128) * 64 + (128 + r1 - 128))%N with c by lia.
  decide_N. reflexivity.
Qed.

Lemma utf8_decode_encode (s bytes : list N) :
  utf8_encode s = Some bytes -> utf8_decode bytes = Some s.
Proof.
  revert bytes. induction s as [| c r IH]; intros bytes; cbn [utf8_encode].
  - now intros [= <-].
  - destruct (utf8_encode_char c) as [b |] eqn:Ec; [| done].
    destruct (utf8_encode r) as [bs |]; [| done].
    cbn [mbind option_bind]. intros [= <-].
    rewrite (utf8_decode_encode_char _ _ _ Ec), (IH bs eq_refl).
    reflexivity.
Qed.

Lemma universal_newlines_written (crlf : bool) (s : list N) :
  Forall (λ c, c <> 13%N) s ->
  universal_newlines (write_newlines crlf s) = s.
Proof.
  induction s as [| c r IH]; intros H; [done |].
  apply Forall_cons in H as [Hc Hr]. cbn [write_newlines].
  destruct ((c =? NEWLINE)%N && crlf) eqn:E.
  - apply andb_true_iff in E as [E _]. apply N.eqb_eq in E. subst c.
    cbn [universal_newlines N.eqb Pos.eqb]. f_equal. now apply IH.
  - cbn [universal_newlines]. apply N.eqb_neq in Hc. rewrite Hc.
    f_equal. now apply IH.
Qed.

(** What [set] stores survives a restart: when the write succeeds, the
    bytes on disk decode without error and [_load_cache] gives back the
    dict as it is after the [set], on either kind of platform,
    provided the JSON library reads back what it dumped and the dumped
    text has no raw carriage return. *)
Theorem set_survives_restart json_dump json_loads crlf
    (text translation : list N) cache bytes :
  let cache' := (set json_dump crlf text translation cache).1 in
  (set json_dump crlf text translation cache).2 = Some bytes ->
  Forall (λ c, c <> 13%N) (json_dump cache') ->
  json_loads (json_dump cache') = Some cache' ->
  utf8_decode bytes = Some (write_newlines crlf (json_dump cache'))
  /\ _load_cache json_loads (Some bytes) = inr cache'
  /\ cache' !! text = Some translation.
Proof.
  intros cache'. subst cache'. unfold set, save. cbn [fst snd].
  intros Hsave Hcr Hjson.
  apply utf8_decode_encode in Hsave.
  split; [exact Hsave |]. split; [| apply lookup_insert_eq].
  unfold _load_cache. rewrite Hsave.
  now rewrite (universal_newlines_written _ _ Hcr), Hjson.
Qed.

(** The dict that holds "a": "b" alone, as json.dump with indent=2
    writes it, on a platform with CRLF line ends. *)
Lemma set_survives_restart_witness :
  let dumped := [123; 10; 32; 32; 34; 97; 34; 58; 32; 34; 98; 34; 10; 125]%N
  in
  let json_dump : gmap (list N) (list N) -> list N := fun _ => dumped in
  let json_loads : list N -> option (gmap (list N) (list N)) :=
    fun t => if decide (t = dumped) then Some {[ py "a" := py "b" ]}
             else None in
  (set json_dump true (py "a") (py "b") ∅).2
  = Some [123; 13; 10; 32; 32; 34; 97; 34; 58; 32; 34; 98; 34; 13; 10; 125]%N
  /\ _load_cache json_loads
       (Some [123; 13; 10; 32; 32; 34; 97; 34; 58; 32; 34; 98; 34; 13; 10;
              125]%N)
     = inr (<[ py "a" := py "b" ]> ∅).
Proof.
  cbv zeta.
  assert ((set (fun _ => [123; 10; 32; 32; 34; 97; 34; 58; 32; 34; 98; 34;
                          10; 125]%N) true (py "a") (py "b") ∅).2
          = Some [123; 13; 10; 32; 32; 34; 97; 34; 58; 32; 34; 98; 34; 13;
                  10; 125]%N) as Hsave by reflexivity.
  split; [exact Hsave |].
  refine (proj1 (proj2 (set_survives_restart _ _ true (py "a") (py "b") ∅ _
                          Hsave _ _))).
  - apply (bool_decide_unpack _). vm_compute. reflexivity.
  - vm_compute. reflexivity.
Defined.

(** [save] fails on one kind of dict only: it raises (UnicodeEncodeError)
    exactly when the dumped text holds a surrogate code point, that is
    when a key or a translation does; a text of Unicode scalar values is
    always written, and the bytes written are valid UTF-8. *)
Theorem save_fails_on_surrogates crlf (dumped : list N) :
  (save crlf dumped = None
   <-> Exists (λ c, ((55296 <= c)%N /\ (c <= 57343)%N) \/ (1114112 <= c)%N)
         dumped)
  /\ forall bytes, save crlf dumped = Some bytes ->
       utf8_decode bytes = Some (write_newlines crlf dumped).
Proof.
  split; [| intros bytes; apply utf8_decode_encode].
  unfold save. rewrite utf8_encode_None.
  induction dumped as [| c r IH]; cbn [write_newlines].
  - split; intros H; inversion H.
  - destruct ((c =? NEWLINE)%N && crlf) eqn:E.
    + apply andb_true_iff in E as [E _]. apply N.eqb_eq in E. subst c.
      rewrite !Exists_cons, IH, !utf8_encode_char_None.
      unfold NEWLINE. split; [intros [? | [? | ?]] | intros [? | ?]];
        try lia; auto.
    + rewrite !Exists_cons, IH, utf8_encode_char_None. reflexivity.
Qed.

Lemma write_newlines_scalar crlf (s : list N) :
  Forall scalar (write_newlines crlf s) <-> Forall scalar s.
Proof.
  induction s as [| c r IH]; cbn [write_newlines]; [done |].
  destruct ((c =? NEWLINE)%N && crlf) eqn:E.
  - apply andb_true_iff in E as [E _]. apply N.eqb_eq in E. subst c.
    rewrite !Forall_cons, IH.
    assert (scalar 13%N /\ scalar NEWLINE) as [H13 H10]
      by (split; apply scalar_ascii; unfold NEWLINE; lia).
    tauto.
  - now rewrite !Forall_cons, IH.
Qed.

(** The [cache.set] of the translation loop is the [set] above as far as
    the dict and the success of the write go, on a disk that takes the
    file, for a [json_dump] whose text can be encoded exactly when the
    keys and the values can. *)
Lemma cache_set_save json_dump crlf (text translation : list N) cache :
  (forall c, encodable (json_dump c) = dumpable c) ->
  (cache_set true text translation cache).2
  = (set json_dump crlf text translation cache).1
  /\ ((cache_set true text translation cache).1 = Return tt
      <-> is_Some (set json_dump crlf text translation cache).2).
Proof.
  intros Hdump. unfold cache_set, set, save. cbn [fst snd].
  split; [reflexivity |]. rewrite andb_true_r, <- Hdump.
  set (dumped := json_dump (<[text:=translation]> cache)).
  assert (encodable (write_newlines crlf dumped) = encodable dumped) as E.
  { apply eq_true_iff_eq. rewrite !encodable_Forall.
    apply write_newlines_scalar. }
  unfold encodable in E at 1.
  destruct (utf8_encode (write_newlines crlf dumped)) as [bytes |];
    rewrite <- E; split; try done.
Qed.

(** ** The names of the files *)

Lemma starts_with_app (p s : list N) : starts_with p (p ++ s) = true.
Proof.
  induction p as [| a p IH]; [done |]. simpl. now rewrite N.eqb_refl.
Qed.

Lemma ends_with_app (p suffix : list N) : ends_with suffix (p ++ suffix) = true.
Proof.
  unfold ends_with. rewrite reverse_app. apply starts_with_app.
Qed.

(** The output file never collides with an input: its name, whatever the
    old suffix was, ends in ".zh.srt", so it is different from the name
    of every file selected for translation, in this run and in any later
    one (an output is never translated again, a source never
    overwritten). *)
Theorem output_name_never_selected suffix (name : list N)
    (globbed : list (list N)) :
  ends_with ZH_SRT (output_name suffix name) = true
  /\ (output_name suffix name ∉ select_srt_files globbed)
  /\ (name ∈ select_srt_files globbed -> output_name suffix name <> name).
Proof.
  assert (ends_with ZH_SRT (output_name suffix name) = true) as Hends
    by apply ends_with_app.
  assert (output_name suffix name ∉ select_srt_files globbed) as Hnot.
  { unfold select_srt_files. rewrite list_elem_of_filter.
    intros [H _]. congruence. }
  split; [exact Hends |]. split; [exact Hnot |].
  intros Hin E. rewrite E in Hnot. contradiction.
Qed.

Lemma output_name_never_selected_witness :
  let globbed := [py "movie.srt"; py "movie.zh.srt"; py "a.b.srt"] in
  select_srt_files globbed = [py "movie.srt"; py "a.b.srt"]
  /\ output_name path_suffix (py "movie.srt") = py "movie.zh.srt"
  /\ output_name path_suffix (py "a.b.srt") = py "a.b.zh.srt"
  /\ output_name path_suffix (py "movie.srt") <> py "movie.srt".
Proof.
  cbv zeta. split; [vm_compute; reflexivity |].
  split; [vm_compute; reflexivity |]. split; [vm_compute; reflexivity |].
  apply (proj2 (proj2 (output_name_never_selected path_suffix
                         (py "movie.srt")
                         [py "movie.srt"; py "movie.zh.srt"; py "a.b.srt"]))).
  vm_compute. left.
Defined.

(** ** Loading the configuration *)

(** Settings are returned only from a file that exists and parses, with
    all six options present and the three numbers readable: the key and
    the two URLs returned are the values of the file stripped, the three
    numbers are the values of the file converted; the API key returned
    is never empty and, like the two URLs, has no white space around it,
    so a key of blanks is refused before any network call. *)
Theorem load_config_settings_key to_float to_int file c :
  load_config_settings to_float to_int file = inr c ->
  api_key c <> []
  /\ strip (api_key c) = api_key c
  /\ strip (translate_url c) = translate_url c
  /\ strip (usage_url c) = usage_url c
  /\ exists get key t_url u_url sleep threshold max_chars,
       file = Ini get
       /\ get (py "deepl") (py "api_key") = Some key
       /\ get (py "deepl") (py "translate_url") = Some t_url
       /\ get (py "deepl") (py "usage_url") = Some u_url
       /\ (get (py "settings") (py "sleep_time") ≫= to_float) = Some sleep
       /\ (get (py "settings") (py "quota_threshold") ≫= to_float)
          = Some threshold
       /\ (get (py "settings") (py "max_batch_chars") ≫= to_int)
          = Some max_chars
       /\ c = Config (strip key) (strip t_url) (strip u_url)
                (Settings sleep threshold max_chars).
Proof.
  destruct file as [| | get]; [done | done |].
  unfold load_config_settings, config_getnumber, config_get, and_then.
  destruct (get (py "deepl") (py "api_key")) as [key |] eqn:E0; [| done].
  destruct (get (py "deepl") (py "translate_url")) as [t_url |] eqn:Et;
    [| done].
  destruct (get (py "deepl") (py "usage_url")) as [u_url |] eqn:Eu; [| done].
  destruct (get (py "settings") (py "sleep_time")) as [v1 |] eqn:E1;
    [| done].
  destruct (to_float v1) as [sleep |] eqn:F1; [| done].
  destruct (get (py "settings") (py "quota_threshold")) as [v2 |] eqn:E2;
    [| done].
  destruct (to_float v2) as [threshold |] eqn:F2; [| done].
  destruct (get (py "settings") (py "max_batch_chars")) as [v3 |] eqn:E3;
    [| done].
  destruct (to_int v3) as [max_chars |] eqn:F3; [| done].
  destruct (truthy (strip key)) eqn:Hkey; cbn [negb]; [| done].
  intros [= <-]. cbn [api_key translate_url usage_url flow].
  apply truthy_true in Hkey.
  split; [exact Hkey |]. rewrite !strip_idempotent.
  do 3 (split; [reflexivity |]).
  exists get, key, t_url, u_url, sleep, threshold, max_chars.
  rewrite E0, Et, Eu, E1, E2, E3. cbn [mbind option_bind].
  rewrite F1, F2, F3. done.
Qed.

Lemma load_config_settings_key_witness :
  let get : list N -> list N -> option (list N) :=
    fun section key =>
      if decide (key = py "api_key") then Some (py " abc:fx ")
      else Some (py "1") in
  let file := Ini get in
  let c := Config (py "abc:fx") (py "1") (py "1")
             (Settings (decimal 1 1) (decimal 1 1) 1) in
  load_config_settings (fun _ => Some (decimal 1 1)) (fun _ => Some 1) file
  = inr c
  /\ api_key c <> [] /\ strip (api_key c) = api_key c.
Proof.
  cbv zeta.
  assert (load_config_settings (fun _ => Some (decimal 1 1))
            (fun _ => Some 1)
            (Ini (fun section key =>
                    if decide (key = py "api_key") then Some (py " abc:fx ")
                    else Some (py "1")))
          = inr (Config (py "abc:fx") (py "1") (py "1")
                   (Settings (decimal 1 1) (decimal 1 1) 1)))
    as Hload by (vm_compute; reflexivity).
  split; [exact Hload |].
  destruct (load_config_settings_key _ _ _ _ Hload) as (H1 & H2 & _).
  split; [exact H1 | exact H2].
Defined.

(** A file without the translate_url option gives no settings, though
    everything else is there. *)
Example load_config_settings_missing_url :
  let get : list N -> list N -> option (list N) :=
    fun section key =>
      if decide (key = py "translate_url") then None else Some (py "1") in
  load_config_settings (fun _ => Some (decimal 1 1)) (fun _ => Some 1)
    (Ini get)
  = inl ConfigIncomplete.
Proof. vm_compute. reflexivity. Qed.

(** ** More on the planner *)

(** Every clean text of the file is accounted for, in one of two ways
    that exclude each other: it is a cache hit, and then the result map
    holds its cached translation before any request and no batch lists
    it; or it is not cached, and then some batch lists it and the result
    map does not hold it yet.  The result map holds nothing else. *)
Theorem plan_covers_every_text cache MAX_CHARS
    (indexed_blocks : list (list N)) :
  let bs := (plan cache MAX_CHARS indexed_blocks).1 in
  let hits := (plan cache MAX_CHARS indexed_blocks).2 in
  (forall t, t ∈ clean_texts indexed_blocks ->
     (exists v, cache !! t = Some v /\ hits !! t = Some v
                /\ forall b, b ∈ bs -> t ∉ b.2)
     \/ (cache !! t = None /\ hits !! t = None
         /\ exists b, b ∈ bs /\ t ∈ b.2))
  /\ (forall t v, hits !! t = Some v ->
        t ∈ clean_texts indexed_blocks /\ cache !! t = Some v).
Proof.
  intros bs hits. subst bs hits. split.
  - intros t Ht. rewrite plan_hits, decide_True by done.
    destruct (cache !! t) as [v |] eqn:Hc.
    + left. exists v. split; [done |]. split; [done |].
      intros b Hb Hin.
      destruct (plan_batch_texts_uncached _ _ _ _ _ Hb Hin). congruence.
    + right. split; [done |]. split; [done |].
      assert (t ∈ uncached cache indexed_blocks) as Hin
        by now apply elem_of_uncached.
      destruct (plan_batches cache MAX_CHARS indexed_blocks) as [Hcover _].
      rewrite <- Hcover in Hin.
      apply elem_of_concat_inv in Hin as (k & texts & Hk & Hin).
      rewrite list_lookup_fmap in Hk.
      destruct ((plan cache MAX_CHARS indexed_blocks).1 !! k) as [b |] eqn:Hb;
        [| done].
      injection Hk as <-. exists b. split; [| done].
      by eapply list_elem_of_lookup_2.
  - intros t v. rewrite plan_hits. case_decide; [done | done].
Qed.

Lemma packed_snoc MAX_CHARS bs b1 b2 :
  packed MAX_CHARS (bs ++ [b1]) -> overflows MAX_CHARS b1 b2 ->
  packed MAX_CHARS (bs ++ [b1; b2]).
Proof.
  intros Hp Ho. induction bs as [| a bs IH]; [simpl; auto |].
  cbn [app packed] in *.
  destruct bs as [| a' bs]; cbn [app] in *; [tauto |].
  destruct Hp as [H1 H2]. split; [exact H1 | now apply IH].
Qed.

Lemma packed_last MAX_CHARS bs b b' :
  packed MAX_CHARS (bs ++ [b]) ->
  (forall t rest, b.2 = t :: rest -> exists rest', b'.2 = t :: rest') ->
  packed MAX_CHARS (bs ++ [b']).
Proof.
  intros Hp Hhead. induction bs as [| a bs IH]; [done |].
  cbn [app packed] in *.
  destruct bs as [| a' bs]; cbn [app] in *.
  - destruct Hp as [(t & rest & E & Hlt) _]. split; [| done].
    destruct (Hhead t rest E) as [rest' E']. now exists t, rest'.
  - destruct Hp as [H1 H2]. split; [exact H1 | now apply IH].
Qed.

Lemma packed_step cache MAX_CHARS st block :
  current_batch_text st = batch_string (current_batch_indices st) ->
  (current_batch_indices st = [] -> batches st = []) ->
  packed MAX_CHARS (all_batches st) ->
  (current_batch_indices (plan_step cache MAX_CHARS st block) = [] ->
   batches (plan_step cache MAX_CHARS st block) = [])
  /\ packed MAX_CHARS (all_batches (plan_step cache MAX_CHARS st block)).
Proof.
  intros Htext Hfirst Hp. unfold plan_step.
  destruct (_ <? _)%nat; [done |].
  destruct (cache !! _); [done |].
  set (t := english_text_of _).
  destruct ((_ >? _) && _) eqn:Hclose; cbn [batches current_batch_text
    current_batch_indices all_translations].
  - split; [intros H; now apply app_eq_nil in H as [_ ?] |].
    apply andb_true_iff in Hclose as [Hover Hne].
    apply truthy_true in Hne. unfold all_batches in *.
    cbn [batches current_batch_text current_batch_indices app].
    destruct (current_batch_indices st) as [| t0 idx] eqn:Hidx;
      [rewrite Htext in Hne; done |].
    rewrite <- app_assoc. apply packed_snoc; [exact Hp |].
    exists t, []. split; [done |]. cbn [fst].
    rewrite Z.gtb_ltb in Hover. apply Z.ltb_lt in Hover. exact Hover.
  - split; [intros H; now apply app_eq_nil in H as [_ ?] |].
    unfold all_batches in *.
    cbn [batches current_batch_text current_batch_indices].
    destruct (current_batch_indices st) as [| t0 idx] eqn:Hidx.
    + rewrite (Hfirst eq_refl). done.
    + cbn [app]. eapply packed_last; [exact Hp |].
      cbn [snd]. intros t1 rest [= <- <-]. eauto.
Qed.

(** The planner packs greedily: of two consecutive batches, the second
    begins with a text that the first had no room left for within
    max_batch_chars.  No batch is closed early, so no request is spent
    that the budget did not force. *)
Theorem plan_batches_greedy cache MAX_CHARS (indexed_blocks : list (list N))
    i b1 b2 :
  (plan cache MAX_CHARS indexed_blocks).1 !! i = Some b1 ->
  (plan cache MAX_CHARS indexed_blocks).1 !! S i = Some b2 ->
  exists t rest,
    b2.2 = t :: rest
    /\ MAX_CHARS
       < Z.of_nat (length b1.1) + Z.of_nat (length (t ++ SPLIT_TOKEN)).
Proof.
  assert (forall seen,
            let st := fold_left (plan_step cache MAX_CHARS) seen
                        (PlanState [] [] [] ∅) in
            (current_batch_indices st = [] -> batches st = [])
            /\ packed MAX_CHARS (all_batches st)) as Hinv.
  { induction seen as [| block seen IH] using rev_ind; [done |].
    rewrite fold_left_app. cbn [fold_left].
    destruct IH as [H1 H2].
    destruct (plan_inv_loop cache MAX_CHARS seen) as (_ & Htext & _).
    now apply packed_step. }
  destruct (Hinv indexed_blocks) as [_ Hp].
  destruct (plan_inv_loop cache MAX_CHARS indexed_blocks)
    as (_ & Htext & _).
  assert ((plan cache MAX_CHARS indexed_blocks).1
          = all_batches (fold_left (plan_step cache MAX_CHARS) indexed_blocks
                           (PlanState [] [] [] ∅))) as ->.
  { unfold plan, all_batches. cbn [fst].
    set (st := fold_left _ _ _) in *.
    destruct (current_batch_indices st) as [| t0 idx] eqn:Hidx.
    - rewrite Htext. now rewrite app_nil_r.
    - destruct (truthy (current_batch_text st)) eqn:Hne; [done |].
      apply truthy_false in Hne. rewrite Hne in Htext. symmetry in Htext.
      now apply batch_string_nil_inv in Htext. }
  revert i Hp. generalize (all_batches (fold_left (plan_step cache MAX_CHARS)
                                          indexed_blocks
                                          (PlanState [] [] [] ∅))).
  induction l as [| a l IH]; intros i Hp Hi Hj; [done |].
  destruct l as [| a' l]; [done |].
  destruct Hp as [Ho Hp].
  destruct i as [| i]; cbn in Hi, Hj.
  - injection Hi as <-. injection Hj as <-. exact Ho.
  - exact (IH i Hp Hi Hj).
Qed.

Lemma plan_batches_greedy_witness :
  let unit1 := py "1" ++ [NEWLINE] ++ py "00:00:01,000 --> 00:00:02,000"
               ++ [NEWLINE] ++ py "Hello" ++ [NEWLINE; NEWLINE] in
  let unit2 := py "2" ++ [NEWLINE] ++ py "00:00:03,000 --> 00:00:04,000"
               ++ [NEWLINE] ++ py "World" in
  let bs := (plan ∅ 30 [unit1; unit2]).1 in
  bs = [(py "Hello<DEEPL_SPLIT_TOKEN>", [py "Hello"]);
        (py "World<DEEPL_SPLIT_TOKEN>", [py "World"])]
  /\ exists t rest,
       [py "World"] = t :: rest
       /\ 30 < Z.of_nat (length (py "Hello<DEEPL_SPLIT_TOKEN>"))
               + Z.of_nat (length (t ++ SPLIT_TOKEN)).
Proof.
  cbv zeta. split; [vm_compute; reflexivity |].
  refine (plan_batches_greedy ∅ 30
            [py "1" ++ [NEWLINE] ++ py "00:00:01,000 --> 00:00:02,000"
             ++ [NEWLINE] ++ py "Hello" ++ [NEWLINE; NEWLINE];
             py "2" ++ [NEWLINE] ++ py "00:00:03,000 --> 00:00:04,000"
             ++ [NEWLINE] ++ py "World"] 0
            (py "Hello<DEEPL_SPLIT_TOKEN>", [py "Hello"])
            (py "World<DEEPL_SPLIT_TOKEN>", [py "World"]) _ _);
    vm_compute; reflexivity.
Defined.

(** ** The clean text *)

Lemma split_from_newline_free cur (s : list N) :
  NEWLINE ∉ cur ->
  Forall (λ l, NEWLINE ∉ l) (split_from [NEWLINE] 0 cur s).
Proof.
  revert cur. induction s as [| c r IH]; intros cur Hcur;
    cbn [split_from starts_with].
  - constructor; [| constructor]. now rewrite elem_of_reverse.
  - destruct (N.eqb_spec NEWLINE c) as [<- | Hne]; cbn [andb].
    + constructor; [now rewrite elem_of_reverse |].
      apply IH. apply not_elem_of_nil.
    + apply IH. rewrite elem_of_cons. intros [E | H]; [congruence | done].
Qed.

Lemma join_newline_free (parts : list (list N)) :
  Forall (λ l, NEWLINE ∉ l) parts -> NEWLINE ∉ join [SPACE] parts.
Proof.
  induction parts as [| a parts IH]; intros H; [apply not_elem_of_nil |].
  apply Forall_cons in H as [Ha Hparts].
  destruct parts as [| b parts]; [exact Ha |].
  change (join [SPACE] (a :: b :: parts))
    with (a ++ [SPACE] ++ join [SPACE] (b :: parts)).
  rewrite !elem_of_app, list_elem_of_singleton.
  intros [? | [E | ?]]; [done | discriminate E | now apply IH].
Qed.

Lemma sub_annotations_elem k (s : list N) (x : N) :
  x ∈ sub_annotations k s -> x ∈ s.
Proof.
  revert k. induction s as [| c r IH]; intros k; cbn [sub_annotations];
    [done |].
  destruct k as [| k]; [| intros H; right; eapply IH, H].
  destruct (match_annotation (c :: r)); [intros H; right; eapply IH, H |].
  rewrite !elem_of_cons. intros [-> | H]; [now left | right; eapply IH, H].
Qed.

Lemma find_close_None (x : N) (s : list N) :
  NEWLINE ∉ s -> find_close x s = None -> x ∉ s.
Proof.
  induction s as [| c r IH]; intros Hnl; cbn [find_close];
    [intros _; apply not_elem_of_nil |].
  apply not_elem_of_cons in Hnl as [Hc Hr].
  destruct (N.eqb_spec c x) as [-> | Hne]; [done |].
  destruct (N.eqb_spec c NEWLINE) as [-> | _]; [done |].
  destruct (find_close x r); [done |]. intros _.
  apply not_elem_of_cons. split; [congruence | now apply IH].
Qed.

Lemma find_close_notin (x : N) (s : list N) : x ∉ s -> find_close x s = None.
Proof.
  induction s as [| c r IH]; intros H; cbn [find_close]; [done |].
  apply not_elem_of_cons in H as [Hc Hr].
  destruct (N.eqb_spec c x) as [-> | Hne]; [done |].
  destruct (c =? NEWLINE)%N; [done |]. now rewrite (IH Hr).
Qed.

Lemma sub_annotations_free k (s : list N) :
  NEWLINE ∉ s -> annotation_free (sub_annotations k s).
Proof.
  revert k. induction s as [| c r IH]; intros k Hnl; cbn [sub_annotations].
  - intros p q. split; intros E; by destruct p.
  - apply not_elem_of_cons in Hnl as [Hc Hr].
    destruct k as [| k]; [| now apply IH].
    destruct (match_annotation (c :: r)) as [n |] eqn:Hm; [now apply IH |].
    cbn [match_annotation] in Hm.
    intros p q.
    split; intros E; destruct p as [| c' p]; cbn [app] in E;
      injection E as -> E.
    + cbn [N.eqb Pos.eqb] in Hm. subst q.
      destruct (find_close 93 r) eqn:F; [done |].
      intros H. apply sub_annotations_elem in H.
      now apply (find_close_None _ _ Hr F).
    + now apply (proj1 (IH 0%nat Hr p q)).
    + cbn [N.eqb Pos.eqb] in Hm. subst q.
      destruct (find_close 125 r) eqn:F; [done |].
      intros H. apply sub_annotations_elem in H.
      now apply (find_close_None _ _ Hr F).
    + now apply (proj2 (IH 0%nat Hr p q)).
Qed.

Lemma annotation_free_infix (a t b : list N) :
  annotation_free (a ++ t ++ b) -> annotation_free t.
Proof.
  intros H p q. destruct (H (a ++ p) (q ++ b)) as [H1 H2].
  split; intros ->.
  - intros Hin. apply H1; [| apply elem_of_app; now left].
    now rewrite <- !app_assoc.
  - intros Hin. apply H2; [| apply elem_of_app; now left].
    now rewrite <- !app_assoc.
Qed.

Lemma annotation_free_fixed (t : list N) :
  annotation_free t -> sub_annotations 0 t = t.
Proof.
  induction t as [| c r IH]; intros H; [done |].
  cbn [sub_annotations].
  assert (match_annotation (c :: r) = None) as ->.
  { cbn [match_annotation]. destruct (H [] r) as [H1 H2].
    destruct (N.eqb_spec c 91) as [-> | _].
    - now rewrite (find_close_notin _ _ (H1 eq_refl)).
    - destruct (N.eqb_spec c 123) as [-> | _]; [| done].
      now rewrite (find_close_notin _ _ (H2 eq_refl)). }
  f_equal. apply IH. intros p q. destruct (H (c :: p) q) as [H1 H2].
  split; intros ->; [now apply H1 | now apply H2].
Qed.

Lemma strip_infix (s : list N) : exists a b, s = a ++ strip s ++ b.
Proof.
  destruct (lstrip_suffix s) as [a Ha].
  destruct (lstrip_suffix (reverse (lstrip s))) as [b Hb].
  exists a, (reverse b). unfold strip, rstrip.
  rewrite <- reverse_app, <- Hb, reverse_involutive. exact Ha.
Qed.

(** The clean text of a unit, the key of the cache and the text sent for
    translation, is in normal form: it holds no newline, no bracketed
    and no braced annotation (no opening bracket or brace with its
    closing one after it), and no white space at either end; cleaning it
    again gives the same text. *)
Theorem clean_text_normal_form (block : list N) :
  let t := clean_text block in
  (NEWLINE ∉ t)
  /\ annotation_free t
  /\ strip t = t
  /\ english_text_of [t] = t.
Proof.
  intros t. subst t. unfold clean_text, english_text_of.
  set (joined := join [SPACE] (drop 2 (split [NEWLINE] block))).
  assert (NEWLINE ∉ joined) as Hnl.
  { apply join_newline_free, Forall_drop, split_from_newline_free,
      not_elem_of_nil. }
  destruct (strip_infix (sub_annotations 0 joined)) as (a & b & E).
  assert (annotation_free (strip (sub_annotations 0 joined))) as Hfree.
  { apply (annotation_free_infix a _ b). rewrite <- E.
    now apply sub_annotations_free. }
  split; [| split; [exact Hfree | split; [apply strip_idempotent |]]].
  - intros Hin. apply Hnl, (sub_annotations_elem 0). rewrite E.
    rewrite !elem_of_app. auto.
  - cbn [join]. rewrite (annotation_free_fixed _ Hfree).
    apply strip_idempotent.
Qed.

(** ** Text lines kept verbatim *)

Lemma join_cons (sep p : list N) (l : list (list N)) :
  l <> [] -> join sep (p :: l) = p ++ sep ++ join sep l.
Proof. now destruct l. Qed.

Lemma join_snoc (sep x : list N) (l : list (list N)) :
  l <> [] -> join sep (l ++ [x]) = join sep l ++ sep ++ x.
Proof.
  induction l as [| a l IH]; [done |]. intros _.
  destruct l as [| b l]; [reflexivity |].
  change ((a :: b :: l) ++ [x]) with (a :: ((b :: l) ++ [x])).
  rewrite join_cons by (cbn; discriminate).
  rewrite IH by discriminate.
  rewrite (join_cons sep a (b :: l)) by discriminate.
  now rewrite <- !app_assoc.
Qed.

Lemma join_split_from cur (s : list N) :
  join [NEWLINE] (split_from [NEWLINE] 0 cur s) = reverse cur ++ s.
Proof.
  revert cur. induction s as [| c r IH]; intros cur;
    cbn [split_from starts_with].
  - cbn [join]. now rewrite app_nil_r.
  - destruct (N.eqb_spec NEWLINE c) as [<- | Hne]; cbn [andb].
    + rewrite join_cons by apply split_from_nonempty.
      now rewrite IH.
    + rewrite IH, reverse_cons, <- app_assoc. reflexivity.
Qed.

(** A unit whose text lines are all non-blank goes into the output
    character for character: its block in the output is the original
    block, a newline, and the translated line. *)
Theorem unit_without_blank_lines_verbatim all_translations cache
    (indexed_blocks : list (list N)) i (block : list N) :
  indexed_blocks !! i = Some block ->
  well_formed block = true ->
  Forall (λ l, strip l <> []) (drop 2 (split [NEWLINE] block)) ->
  exists translated,
    first_nonempty all_translations cache (clean_text block) translated
    /\ new_blocks_of all_translations cache indexed_blocks !! i
       = Some (block ++ NEWLINE :: translated).
Proof.
  intros Hi Hwf Hlines.
  eexists. split; [apply translated_first_nonempty |].
  rewrite new_blocks_of_lookup, Hi. cbn [fmap option_fmap option_map].
  unfold reassemble_step. unfold well_formed in Hwf.
  apply negb_true_iff in Hwf. rewrite Hwf. cbn [app lookup list_lookup].
  unfold default, id. f_equal.
  assert (filter (λ l, truthy (strip l) = true)
            (drop 2 (split [NEWLINE] block))
          = drop 2 (split [NEWLINE] block)) as ->.
  { induction Hlines as [| l ls Hl _ IH]; [done |].
    rewrite filter_cons, decide_True by now apply truthy_true.
    now rewrite IH. }
  apply Nat.ltb_ge in Hwf.
  pose proof (join_split_from [] block) as Hjoin.
  change (split_from [NEWLINE] 0 [] block) with (split [NEWLINE] block)
    in Hjoin.
  unfold clean_text.
  destruct (split [NEWLINE] block) as [| index [| timestamp text_lines]];
    [simpl in Hwf; lia | simpl in Hwf; lia |].
  cbn [nth drop]. rewrite !drop_0.
  etrans;
    [apply (join_snoc [NEWLINE] _ (index :: timestamp :: text_lines));
     discriminate |].
  rewrite Hjoin. reflexivity.
Qed.

Lemma unit_without_blank_lines_verbatim_witness :
  let unit1 := py "7" ++ [NEWLINE] ++ py "00:00:01,000 --> 00:00:02,000"
               ++ [NEWLINE] ++ py "- Hello [music]" ++ [NEWLINE]
               ++ py "- World" in
  let cache : gmap (list N) (list N) :=
    {[ py "- Hello  - World" := py "- Bonjour - Monde" ]} in
  well_formed unit1 = true
  /\ Forall (λ l, strip l <> []) (drop 2 (split [NEWLINE] unit1))
  /\ new_blocks_of ∅ cache [unit1] !! 0%nat
     = Some (unit1 ++ NEWLINE :: py "- Bonjour - Monde")
  /\ exists translated,
       first_nonempty ∅ cache (clean_text unit1) translated
       /\ new_blocks_of ∅ cache [unit1] !! 0%nat
          = Some (unit1 ++ NEWLINE :: translated).
Proof.
  cbv zeta.
  set (unit1 := py "7" ++ [NEWLINE] ++ py "00:00:01,000 --> 00:00:02,000"
                ++ [NEWLINE] ++ py "- Hello [music]" ++ [NEWLINE]
                ++ py "- World").
  assert (well_formed unit1 = true) as Hwf by (vm_compute; reflexivity).
  assert (Forall (λ l, strip l <> []) (drop 2 (split [NEWLINE] unit1)))
    as Hlines
    by (apply (bool_decide_unpack _); vm_compute; reflexivity).
  split; [exact Hwf |]. split; [exact Hlines |].
  split; [vm_compute; reflexivity |].
  exact (unit_without_blank_lines_verbatim ∅
           {[ py "- Hello  - World" := py "- Bonjour - Monde" ]}
           [unit1] 0 unit1 eq_refl Hwf Hlines).
Defined.
